(** * Teams channel picker: tree builder, focus list, selection and keyboard model

    A shallow embedding of the algorithmic core of
    [mgt-teams-channel-picker.ts] (class [MgtTeamsChannelPicker]):
    [generateTreeViewState], [generateFocusList], [renderHighlightedText],
    [selectChannel], [lostFocus], [filterList], [selectChannelById] and
    [onUserKeyDown], followed by the properties proved about them. *)

From Stdlib Require Import List ZArith NArith Lia Bool Arith Strings.Byte.
Import ListNotations.

Set Warnings "-register-all".

Local Open Scope list_scope.

(** ** JavaScript strings

    A string is a sequence of UTF-16 code units; [length], [indexOf] and
    [slice] count code units. A literal in double quotes denotes the
    string of its characters and is limited to the Basic Latin block; any
    other code unit is written with [Code]. *)

Module JsString.

Abbreviation codeUnit := N.

Inductive jsstring : Type :=
| Empty
| Code (c : codeUnit) (rest : jsstring).

Fixpoint ofBytes (l : list Byte.byte) : option jsstring :=
  match l with
  | [] => Some Empty
  | b :: r =>
      match ofBytes r with
      | Some s =>
          if (Byte.to_N b <? 0x80)%N then Some (Code (Byte.to_N b) s)
          else None
      | None => None
      end
  end.

Fixpoint toBytes (s : jsstring) : option (list Byte.byte) :=
  match s with
  | Empty => Some []
  | Code c r =>
      match Byte.of_N c, toBytes r with
      | Some b, Some l => if (c <? 0x80)%N then Some (b :: l) else None
      | _, _ => None
      end
  end.

Declare Scope js_scope.
Delimit Scope js_scope with js.
Bind Scope js_scope with jsstring.
String Notation jsstring ofBytes toBytes : js_scope.

(** [s.length]. *)
Fixpoint length (s : jsstring) : nat :=
  match s with
  | Empty => 0
  | Code _ r => S (length r)
  end.

(** [s + t]. *)
Fixpoint append (s t : jsstring) : jsstring :=
  match s with
  | Empty => t
  | Code c r => Code c (append r t)
  end.

Infix "++" := append : js_scope.

(** [s === t] on strings. *)
Fixpoint eqb (s t : jsstring) : bool :=
  match s, t with
  | Empty, Empty => true
  | Code a s', Code b t' => (a =? b)%N && eqb s' t'
  | _, _ => false
  end.

Infix "=?" := eqb : js_scope.

(** The [m] code units of [s] from position [n] on, as far as [s] goes. *)
Fixpoint substring (n m : nat) (s : jsstring) : jsstring :=
  match n, m, s with
  | O, O, _ => Empty
  | O, S m', Empty => Empty
  | O, S m', Code c r => Code c (substring 0 m' r)
  | S n', _, Empty => Empty
  | S n', _, Code _ r => substring n' m r
  end.

(** [s.startsWith(t)]. *)
Fixpoint startsWith (s t : jsstring) : bool :=
  match t with
  | Empty => true
  | Code b t' =>
      match s with
      | Empty => false
      | Code a s' => (a =? b)%N && startsWith s' t'
      end
  end.

(** The first position of [s] at which [t] starts. *)
Fixpoint search (s t : jsstring) : option nat :=
  if startsWith s t then Some 0
  else
    match s with
    | Empty => None
    | Code _ r => option_map S (search r t)
    end.

(** [s.indexOf(t)]: position of the first occurrence, [-1] when absent. *)
Definition indexOf (s t : jsstring) : Z :=
  match search s t with
  | Some n => Z.of_nat n
  | None => (-1)%Z
  end.

(** [s.includes(t)]. *)
Definition includes (s t : jsstring) : bool :=
  match search s t with
  | Some _ => true
  | None => false
  end.

(** [s.slice(b, e)] on integers: a negative bound counts from the end,
    both bounds are clamped to the string, an empty range gives [""]. *)
Definition clampIndex (len i : Z) : Z :=
  if (i <? 0)%Z then Z.max (len + i) 0 else Z.min i len.

Definition slice (s : jsstring) (b e : Z) : jsstring :=
  let len := Z.of_nat (length s) in
  let from := clampIndex len b in
  let to := clampIndex len e in
  if (from <? to)%Z
  then substring (Z.to_nat from) (Z.to_nat (to - from)) s
  else Empty.

(** *** [toLowerCase]

    The Unicode default case conversion, code unit by code unit. A run
    [run a b d t] maps the code units [a], [a + d], ..., up to [b], to
    [t], [t + d], ...: the simple lower-case mappings of the Unicode
    Character Database (version 14) for the Basic Multilingual Plane. *)
Record CaseRun : Type := run {
  firstUnit : codeUnit;
  lastUnit : codeUnit;
  stride : codeUnit;
  image : codeUnit
}.

Definition caseRuns : list CaseRun :=
  [
     run 0x0041 0x005A 1 0x0061; run 0x00C0 0x00D6 1 0x00E0;
     run 0x00D8 0x00DE 1 0x00F8; run 0x0100 0x012E 2 0x0101;
     run 0x0132 0x0136 2 0x0133; run 0x0139 0x0147 2 0x013A;
     run 0x014A 0x0176 2 0x014B; run 0x0178 0x0178 1 0x00FF;
     run 0x0179 0x017D 2 0x017A; run 0x0181 0x0181 1 0x0253;
     run 0x0182 0x0184 2 0x0183; run 0x0186 0x0186 1 0x0254;
     run 0x0187 0x0187 1 0x0188; run 0x0189 0x018A 1 0x0256;
     run 0x018B 0x018B 1 0x018C; run 0x018E 0x018E 1 0x01DD;
     run 0x018F 0x018F 1 0x0259; run 0x0190 0x0190 1 0x025B;
     run 0x0191 0x0191 1 0x0192; run 0x0193 0x0193 1 0x0260;
     run 0x0194 0x0194 1 0x0263; run 0x0196 0x0196 1 0x0269;
     run 0x0197 0x0197 1 0x0268; run 0x0198 0x0198 1 0x0199;
     run 0x019C 0x019C 1 0x026F; run 0x019D 0x019D 1 0x0272;
     run 0x019F 0x019F 1 0x0275; run 0x01A0 0x01A4 2 0x01A1;
     run 0x01A6 0x01A6 1 0x0280; run 0x01A7 0x01A7 1 0x01A8;
     run 0x01A9 0x01A9 1 0x0283; run 0x01AC 0x01AC 1 0x01AD;
     run 0x01AE 0x01AE 1 0x0288; run 0x01AF 0x01AF 1 0x01B0;
     run 0x01B1 0x01B2 1 0x028A; run 0x01B3 0x01B5 2 0x01B4;
     run 0x01B7 0x01B7 1 0x0292; run 0x01B8 0x01B8 1 0x01B9;
     run 0x01BC 0x01BC 1 0x01BD; run 0x01C4 0x01C4 1 0x01C6;
     run 0x01C5 0x01C5 1 0x01C6; run 0x01C7 0x01C7 1 0x01C9;
     run 0x01C8 0x01C8 1 0x01C9; run 0x01CA 0x01CA 1 0x01CC;
     run 0x01CB 0x01DB 2 0x01CC; run 0x01DE 0x01EE 2 0x01DF;
     run 0x01F1 0x01F1 1 0x01F3; run 0x01F2 0x01F4 2 0x01F3;
     run 0x01F6 0x01F6 1 0x0195; run 0x01F7 0x01F7 1 0x01BF;
     run 0x01F8 0x021E 2 0x01F9; run 0x0220 0x0220 1 0x019E;
     run 0x0222 0x0232 2 0x0223; run 0x023A 0x023A 1 0x2C65;
     run 0x023B 0x023B 1 0x023C; run 0x023D 0x023D 1 0x019A;
     run 0x023E 0x023E 1 0x2C66; run 0x0241 0x0241 1 0x0242;
     run 0x0243 0x0243 1 0x0180; run 0x0244 0x0244 1 0x0289;
     run 0x0245 0x0245 1 0x028C; run 0x0246 0x024E 2 0x0247;
     run 0x0370 0x0372 2 0x0371; run 0x0376 0x0376 1 0x0377;
     run 0x037F 0x037F 1 0x03F3; run 0x0386 0x0386 1 0x03AC;
     run 0x0388 0x038A 1 0x03AD; run 0x038C 0x038C 1 0x03CC;
     run 0x038E 0x038F 1 0x03CD; run 0x0391 0x03A1 1 0x03B1;
     run 0x03A3 0x03AB 1 0x03C3; run 0x03CF 0x03CF 1 0x03D7;
     run 0x03D8 0x03EE 2 0x03D9; run 0x03F4 0x03F4 1 0x03B8;
     run 0x03F7 0x03F7 1 0x03F8; run 0x03F9 0x03F9 1 0x03F2;
     run 0x03FA 0x03FA 1 0x03FB; run 0x03FD 0x03FF 1 0x037B;
     run 0x0400 0x040F 1 0x0450; run 0x0410 0x042F 1 0x0430;
     run 0x0460 0x0480 2 0x0461; run 0x048A 0x04BE 2 0x048B;
     run 0x04C0 0x04C0 1 0x04CF; run 0x04C1 0x04CD 2 0x04C2;
     run 0x04D0 0x052E 2 0x04D1; run 0x0531 0x0556 1 0x0561;
     run 0x10A0 0x10C5 1 0x2D00; run 0x10C7 0x10C7 1 0x2D27;
     run 0x10CD 0x10CD 1 0x2D2D; run 0x13A0 0x13EF 1 0xAB70;
     run 0x13F0 0x13F5 1 0x13F8; run 0x1C90 0x1CBA 1 0x10D0;
     run 0x1CBD 0x1CBF 1 0x10FD; run 0x1E00 0x1E94 2 0x1E01;
     run 0x1E9E 0x1E9E 1 0x00DF; run 0x1EA0 0x1EFE 2 0x1EA1;
     run 0x1F08 0x1F0F 1 0x1F00; run 0x1F18 0x1F1D 1 0x1F10;
     run 0x1F28 0x1F2F 1 0x1F20; run 0x1F38 0x1F3F 1 0x1F30;
     run 0x1F48 0x1F4D 1 0x1F40; run 0x1F59 0x1F5F 2 0x1F51;
     run 0x1F68 0x1F6F 1 0x1F60; run 0x1F88 0x1F8F 1 0x1F80;
     run 0x1F98 0x1F9F 1 0x1F90; run 0x1FA8 0x1FAF 1 0x1FA0;
     run 0x1FB8 0x1FB9 1 0x1FB0; run 0x1FBA 0x1FBB 1 0x1F70;
     run 0x1FBC 0x1FBC 1 0x1FB3; run 0x1FC8 0x1FCB 1 0x1F72;
     run 0x1FCC 0x1FCC 1 0x1FC3; run 0x1FD8 0x1FD9 1 0x1FD0;
     run 0x1FDA 0x1FDB 1 0x1F76; run 0x1FE8 0x1FE9 1 0x1FE0;
     run 0x1FEA 0x1FEB 1 0x1F7A; run 0x1FEC 0x1FEC 1 0x1FE5;
     run 0x1FF8 0x1FF9 1 0x1F78; run 0x1FFA 0x1FFB 1 0x1F7C;
     run 0x1FFC 0x1FFC 1 0x1FF3; run 0x2126 0x2126 1 0x03C9;
     run 0x212A 0x212A 1 0x006B; run 0x212B 0x212B 1 0x00E5;
     run 0x2132 0x2132 1 0x214E; run 0x2160 0x216F 1 0x2170;
     run 0x2183 0x2183 1 0x2184; run 0x24B6 0x24CF 1 0x24D0;
     run 0x2C00 0x2C2F 1 0x2C30; run 0x2C60 0x2C60 1 0x2C61;
     run 0x2C62 0x2C62 1 0x026B; run 0x2C63 0x2C63 1 0x1D7D;
     run 0x2C64 0x2C64 1 0x027D; run 0x2C67 0x2C6B 2 0x2C68;
     run 0x2C6D 0x2C6D 1 0x0251; run 0x2C6E 0x2C6E 1 0x0271;
     run 0x2C6F 0x2C6F 1 0x0250; run 0x2C70 0x2C70 1 0x0252;
     run 0x2C72 0x2C72 1 0x2C73; run 0x2C75 0x2C75 1 0x2C76;
     run 0x2C7E 0x2C7F 1 0x023F; run 0x2C80 0x2CE2 2 0x2C81;
     run 0x2CEB 0x2CED 2 0x2CEC; run 0x2CF2 0x2CF2 1 0x2CF3;
     run 0xA640 0xA66C 2 0xA641; run 0xA680 0xA69A 2 0xA681;
     run 0xA722 0xA72E 2 0xA723; run 0xA732 0xA76E 2 0xA733;
     run 0xA779 0xA77B 2 0xA77A; run 0xA77D 0xA77D 1 0x1D79;
     run 0xA77E 0xA786 2 0xA77F; run 0xA78B 0xA78B 1 0xA78C;
     run 0xA78D 0xA78D 1 0x0265; run 0xA790 0xA792 2 0xA791;
     run 0xA796 0xA7A8 2 0xA797; run 0xA7AA 0xA7AA 1 0x0266;
     run 0xA7AB 0xA7AB 1 0x025C; run 0xA7AC 0xA7AC 1 0x0261;
     run 0xA7AD 0xA7AD 1 0x026C; run 0xA7AE 0xA7AE 1 0x026A;
     run 0xA7B0 0xA7B0 1 0x029E; run 0xA7B1 0xA7B1 1 0x0287;
     run 0xA7B2 0xA7B2 1 0x029D; run 0xA7B3 0xA7B3 1 0xAB53;
     run 0xA7B4 0xA7C2 2 0xA7B5; run 0xA7C4 0xA7C4 1 0xA794;
     run 0xA7C5 0xA7C5 1 0x0282; run 0xA7C6 0xA7C6 1 0x1D8E;
     run 0xA7C7 0xA7C9 2 0xA7C8; run 0xA7D0 0xA7D0 1 0xA7D1;
     run 0xA7D6 0xA7D8 2 0xA7D7; run 0xA7F5 0xA7F5 1 0xA7F6;
     run 0xFF21 0xFF3A 1 0xFF41
  ].

Definition covers (c : codeUnit) (r : CaseRun) : bool :=
  ((firstUnit r <=? c) && (c <=? lastUnit r)
   && ((c - firstUnit r) mod stride r =? 0))%N.

(** The runs are in increasing order: the search stops at the first run
    that starts beyond [c]. *)
Fixpoint findRun (c : codeUnit) (runs : list CaseRun) : option CaseRun :=
  match runs with
  | [] => None
  | r :: rest =>
      if (c <? firstUnit r)%N then None
      else if covers c r then Some r
      else findRun c rest
  end.

Definition simpleLower (c : codeUnit) : codeUnit :=
  match findRun c caseRuns with
  | Some r => (image r + (c - firstUnit r))%N
  | None => c
  end.

(** U+0130, LATIN CAPITAL LETTER I WITH DOT ABOVE: the one code unit
    whose lower case takes two, [i] and U+0307 COMBINING DOT ABOVE. *)
Definition dottedI : codeUnit := 0x0130.
Definition combiningDot : codeUnit := 0x0307.

Definition lowerUnit (c : codeUnit) : jsstring :=
  if (c =? dottedI)%N then Code 0x0069 (Code combiningDot Empty)
  else Code (simpleLower c) Empty.

(** [s.toLowerCase()]. Two rules of the conversion look beyond one code
    unit and are left out: a capital sigma U+03A3 that ends a word
    becomes U+03C3 here as everywhere else, and the letters outside the
    Basic Multilingual Plane (pairs of surrogates) stay as they are. *)
Fixpoint toLowerCase (s : jsstring) : jsstring :=
  match s with
  | Empty => Empty
  | Code c r => append (lowerUnit c) (toLowerCase r)
  end.

(** The code units on which [toLowerCase] is exactly the conversion of
    the language, one unit for one unit: all but U+0130, the capital
    sigma and the surrogates. *)
Definition unitwise (c : codeUnit) : bool :=
  (negb (c =? dottedI) && negb (c =? 0x03A3)
   && negb ((0xD800 <=? c) && (c <=? 0xDFFF)))%N.

Fixpoint unitwiseString (s : jsstring) : bool :=
  match s with
  | Empty => true
  | Code c r => unitwise c && unitwiseString r
  end.

(** The code units removed by [trim]: white space and line terminators. *)
Definition whiteSpace : list codeUnit :=
  [0x0009; 0x000A; 0x000B; 0x000C; 0x000D; 0x0020; 0x00A0; 0x1680;
   0x2000; 0x2001; 0x2002; 0x2003; 0x2004; 0x2005; 0x2006; 0x2007;
   0x2008; 0x2009; 0x200A; 0x2028; 0x2029; 0x202F; 0x205F; 0x3000;
   0xFEFF]%N.

Definition isWhitespace (c : codeUnit) : bool :=
  existsb (N.eqb c) whiteSpace.

Fixpoint whitespaceOnly (s : jsstring) : bool :=
  match s with
  | Empty => true
  | Code c r => isWhitespace c && whitespaceOnly r
  end.

End JsString.
Import JsString.
Local Open Scope js_scope.
Local Open Scope list_scope.

(** ** Data model *)

(** A [MicrosoftGraph.Channel | Team]: the two fields the picker reads. *)
Record GraphItem : Type := mkGraphItem {
  id : jsstring;
  displayName : jsstring
}.

(** [DropdownItem]: the source tree; [src_channels] is [None] when the
    [channels] property is undefined. *)
Inductive DropdownItem : Type :=
  mkDropdownItem {
    src_channels : option (list DropdownItem);
    src_item : GraphItem
  }.

(** The [parent] back-reference of a [ChannelPickerItemState]: the identity
    of the parent object and its [item] (the only field read through it). *)
Record ParentRef : Type := mkParentRef {
  parent_ref : nat;
  parent_item : GraphItem
}.

(** [ChannelPickerItemState]: a node of the presentation tree. [ref] is the
    identity of the JavaScript object (what [===] compares); [isExpanded]
    and [channels] are [None] when the property is undefined, [parent] is
    [None] for [null]. *)
Inductive ChannelPickerItemState : Type :=
  mkItemState {
    ref : nat;
    item : GraphItem;
    isExpanded : option bool;
    channels : option (list ChannelPickerItemState);
    parent : option ParentRef
  }.

Definition asParent (r : nat) (it : GraphItem) : option ParentRef :=
  Some (mkParentRef r it).

(** ** Tree builder: [generateTreeViewState]

    The extra argument and result [next] is the allocator of object
    identities: every object literal [{ item: state.item, parent }] takes
    the next one. *)

Definition pushState (stateItem : option ChannelPickerItemState)
    (treeView : list ChannelPickerItemState) : list ChannelPickerItemState :=
  match stateItem with
  | Some s => s :: treeView
  | None => treeView
  end.

(** The body of the [for (const state of tree)] loop, for a filter jsstring
    that has already been lower-cased. *)
Fixpoint generateItem (filterString : jsstring) (parent : option ParentRef)
    (state : DropdownItem) (next : nat) {struct state}
    : option ChannelPickerItemState * nat :=
  let loop :=
    fix loop (filterString : jsstring) (parent : option ParentRef)
        (tree : list DropdownItem) (next : nat) {struct tree}
        : list ChannelPickerItemState * nat :=
      match tree with
      | [] => ([], next)
      | state :: rest =>
          let '(stateItem, next1) := generateItem filterString parent state next in
          let '(treeView, next2) := loop filterString parent rest next1 in
          (pushState stateItem treeView, next2)
      end in
  match state with
  | mkDropdownItem chs it =>
      if (JsString.length filterString =? 0)%nat
         || includes (toLowerCase (displayName it)) filterString
      then
        match chs with
        | Some cs =>
            let '(kids, next1) :=
              loop (toLowerCase "") (asParent next it) cs (S next) in
            (Some (mkItemState next it (Some (0 <? JsString.length filterString)%nat)
                               (Some kids) parent), next1)
        | None => (Some (mkItemState next it None None parent), S next)
        end
      else
        match chs with
        | Some cs =>
            let '(kids, next1) :=
              loop (toLowerCase filterString) (asParent next it) cs (S next) in
            if (0 <? List.length kids)%nat
            then (Some (mkItemState next it (Some true) (Some kids) parent), next1)
            else (None, next1)
        | None => (None, next)
        end
  end.

(** The loop itself. *)
Fixpoint generateLoop (filterString : jsstring) (parent : option ParentRef)
    (tree : list DropdownItem) (next : nat)
    : list ChannelPickerItemState * nat :=
  match tree with
  | [] => ([], next)
  | state :: rest =>
      let '(stateItem, next1) := generateItem filterString parent state next in
      let '(treeView, next2) := generateLoop filterString parent rest next1 in
      (pushState stateItem treeView, next2)
  end.

(** [generateTreeViewState(tree, filterString = '', parent = null)]:
    lower-cases the filter, then loops when [tree] is defined. *)
Definition generateTreeViewState (tree : option (list DropdownItem))
    (filterString : jsstring) (parent : option ParentRef) (next : nat)
    : list ChannelPickerItemState * nat :=
  let filterString := toLowerCase filterString in
  match tree with
  | Some tree => generateLoop filterString parent tree next
  | None => ([], next)
  end.

(** ** Focus list flattener: [generateFocusList] *)

Definition isTrue (b : option bool) : bool :=
  match b with
  | Some true => true
  | _ => false
  end.

(** One iteration of the loop: push the item, then the focus list of its
    channels when [item.channels && item.isExpanded]. *)
Fixpoint focusItem (it : ChannelPickerItemState) : list ChannelPickerItemState :=
  it ::
  match channels it with
  | Some cs =>
      if isTrue (isExpanded it)
      then (fix focusLoop (items : list ChannelPickerItemState) :=
              match items with
              | [] => []
              | c :: rest => focusItem c ++ focusLoop rest
              end) cs
      else []
  | None => []
  end.

Fixpoint focusLoop (items : list ChannelPickerItemState)
    : list ChannelPickerItemState :=
  match items with
  | [] => []
  | c :: rest => focusItem c ++ focusLoop rest
  end.

Definition generateFocusList (items : option (list ChannelPickerItemState))
    : list ChannelPickerItemState :=
  match items with
  | None => []
  | Some items => focusLoop items
  end.

(** ** Highlight formatter: [renderHighlightedText]

    The three properties of the local object [channels]; a property that is
    never assigned stays undefined ([None]). *)
Record HighlightParts : Type := mkHighlightParts {
  first : option jsstring;
  highlight : option jsstring;
  last : option jsstring
}.

Definition highlightParts (inputValue : jsstring) (channel : GraphItem)
    : HighlightParts :=
  let name := displayName channel in
  let nameLength := Z.of_nat (JsString.length name) in
  let inputLength := Z.of_nat (JsString.length inputValue) in
  let highlightLocation :=
    indexOf (toLowerCase name) (toLowerCase inputValue) in
  if negb (highlightLocation =? -1)%Z then
    if (highlightLocation =? 0)%Z then
      mkHighlightParts (Some "")
        (Some (slice name 0 inputLength))
        (Some (slice name inputLength nameLength))
    else if (highlightLocation =? nameLength)%Z then
      mkHighlightParts (Some (slice name 0 highlightLocation))
        (Some (slice name highlightLocation nameLength))
        (Some "")
    else
      mkHighlightParts (Some (slice name 0 highlightLocation))
        (Some (slice name highlightLocation (highlightLocation + inputLength)))
        (Some (slice name (highlightLocation + inputLength) nameLength))
  else
    mkHighlightParts None None (Some name).

(** Text of a [<span>${v}</span>] in the template: an undefined value
    renders as no text. *)
Definition spanText (v : option jsstring) : jsstring :=
  match v with
  | Some s => s
  | None => ""
  end.

(** The text of the three spans produced by [renderHighlightedText]:
    before the match, the highlighted match, after the match. *)
Definition renderHighlightedText (inputValue : jsstring) (channel : GraphItem)
    : jsstring * jsstring * jsstring :=
  let parts := highlightParts inputValue channel in
  (spanText (first parts), spanText (highlight parts), spanText (last parts)).

(** ** The component state *)

(** A JavaScript reference that may be [undefined], [null] or an object. *)
Inductive JsRef (A : Type) : Type :=
| Undefined
| Null
| Obj (a : A).
Arguments Undefined {A}.
Arguments Null {A}.
Arguments Obj {A} a.

Definition truthy {A : Type} (r : JsRef A) : bool :=
  match r with
  | Obj _ => true
  | _ => false
  end.

(** [a === b] on references to presentation nodes: same object. *)
Definition sameRef (a b : JsRef ChannelPickerItemState) : bool :=
  match a, b with
  | Undefined, Undefined => true
  | Null, Null => true
  | Obj x, Obj y => (ref x =? ref y)%nat
  | _, _ => false
  end.

(** [SelectedChannel]. *)
Record SelectedChannel : Type := mkSelectedChannel {
  channel : GraphItem;
  team : GraphItem
}.

(** What the component does to the outside, in order of occurrence. *)
Inductive Effect : Type :=
| FireSelectionChanged (detail : list (option SelectedChannel))
| RequestUpdate
| FocusInput
| FocusTreeItem
| PreventDefault.

(** The global provider and what the Graph answers to [loadState]:
    the teams that are not archived, each with the channels of its batch
    response (no [channels] when the response has no content). *)
Record Provider : Type := mkProvider {
  signedIn : bool;
  scopesGranted : bool;
  teams : list DropdownItem
}.

(** Fields of [MgtTeamsChannelPicker], the two elements the code looks up
    with [querySelector] ([inputElement] is the value of the
    [fluent-text-field] when it is rendered, [treeItemElement] tells
    whether some [fluent-tree-item] is), the allocator of object
    identities and the trace of effects. *)
Record Picker : Type := mkPicker {
  _inputValue : jsstring;
  _isFocused : bool;
  _selectedItemState : JsRef ChannelPickerItemState;
  _items : option (list DropdownItem);
  _treeViewState : list ChannelPickerItemState;
  _focusList : list ChannelPickerItemState;
  _focusedIndex : Z;
  _isDropdownVisible : bool;
  inputElement : option jsstring;
  treeItemElement : bool;
  provider : Provider;
  nextRef : nat;
  trace : list Effect
}.

Definition set_inputValue (v : jsstring) (s : Picker) : Picker :=
  mkPicker v (_isFocused s) (_selectedItemState s) (_items s)
    (_treeViewState s) (_focusList s) (_focusedIndex s) (_isDropdownVisible s)
    (inputElement s) (treeItemElement s) (provider s) (nextRef s) (trace s).

Definition set_isFocused (v : bool) (s : Picker) : Picker :=
  mkPicker (_inputValue s) v (_selectedItemState s) (_items s)
    (_treeViewState s) (_focusList s) (_focusedIndex s) (_isDropdownVisible s)
    (inputElement s) (treeItemElement s) (provider s) (nextRef s) (trace s).

Definition set_selectedItemState (v : JsRef ChannelPickerItemState)
    (s : Picker) : Picker :=
  mkPicker (_inputValue s) (_isFocused s) v (_items s)
    (_treeViewState s) (_focusList s) (_focusedIndex s) (_isDropdownVisible s)
    (inputElement s) (treeItemElement s) (provider s) (nextRef s) (trace s).

Definition set_items (v : option (list DropdownItem)) (s : Picker) : Picker :=
  mkPicker (_inputValue s) (_isFocused s) (_selectedItemState s) v
    (_treeViewState s) (_focusList s) (_focusedIndex s) (_isDropdownVisible s)
    (inputElement s) (treeItemElement s) (provider s) (nextRef s) (trace s).

Definition set_treeViewState (v : list ChannelPickerItemState) (n : nat)
    (s : Picker) : Picker :=
  mkPicker (_inputValue s) (_isFocused s) (_selectedItemState s) (_items s)
    v (_focusList s) (_focusedIndex s) (_isDropdownVisible s)
    (inputElement s) (treeItemElement s) (provider s) n (trace s).

Definition set_focusList (v : list ChannelPickerItemState) (s : Picker)
    : Picker :=
  mkPicker (_inputValue s) (_isFocused s) (_selectedItemState s) (_items s)
    (_treeViewState s) v (_focusedIndex s) (_isDropdownVisible s)
    (inputElement s) (treeItemElement s) (provider s) (nextRef s) (trace s).

Definition set_focusedIndex (v : Z) (s : Picker) : Picker :=
  mkPicker (_inputValue s) (_isFocused s) (_selectedItemState s) (_items s)
    (_treeViewState s) (_focusList s) v (_isDropdownVisible s)
    (inputElement s) (treeItemElement s) (provider s) (nextRef s) (trace s).

Definition set_isDropdownVisible (v : bool) (s : Picker) : Picker :=
  mkPicker (_inputValue s) (_isFocused s) (_selectedItemState s) (_items s)
    (_treeViewState s) (_focusList s) (_focusedIndex s) v
    (inputElement s) (treeItemElement s) (provider s) (nextRef s) (trace s).

Definition set_inputElement (v : option jsstring) (s : Picker) : Picker :=
  mkPicker (_inputValue s) (_isFocused s) (_selectedItemState s) (_items s)
    (_treeViewState s) (_focusList s) (_focusedIndex s) (_isDropdownVisible s)
    v (treeItemElement s) (provider s) (nextRef s) (trace s).

Definition emit (e : Effect) (s : Picker) : Picker :=
  mkPicker (_inputValue s) (_isFocused s) (_selectedItemState s) (_items s)
    (_treeViewState s) (_focusList s) (_focusedIndex s) (_isDropdownVisible s)
    (inputElement s) (treeItemElement s) (provider s) (nextRef s)
    (trace s ++ [e]).

(** ** Methods: state passing with exceptions *)

Inductive Completion (A : Type) : Type :=
| Normal (a : A) (s : Picker)
| TypeError (s : Picker).
Arguments Normal {A} a s.
Arguments TypeError {A} s.

Definition M (A : Type) : Type := Picker -> Completion A.

Definition ret {A : Type} (a : A) : M A := fun s => Normal a s.

Definition bind {A B : Type} (m : M A) (k : A -> M B) : M B :=
  fun s =>
    match m s with
    | Normal a s1 => k a s1
    | TypeError s1 => TypeError s1
    end.

Definition throwTypeError {A : Type} : M A := fun s => TypeError s.
Definition get : M Picker := fun s => Normal s s.
Definition modify (f : Picker -> Picker) : M unit := fun s => Normal tt (f s).
Definition when (b : bool) (m : M unit) : M unit := if b then m else ret tt.

Declare Scope picker_scope.
Delimit Scope picker_scope with picker.
Notation "x <- m ;; k" := (bind m (fun x => k))
  (at level 61, m at next level, right associativity) : picker_scope.
Notation "m ;; k" := (bind m (fun _ => k))
  (at level 61, right associativity) : picker_scope.
Local Open Scope picker_scope.

(** The final state of a call, however it completes. *)
Definition finalState {A : Type} (c : Completion A) : Picker :=
  match c with
  | Normal _ s => s
  | TypeError s => s
  end.

Definition completes {A : Type} (c : Completion A) : bool :=
  match c with
  | Normal _ _ => true
  | TypeError _ => false
  end.

(** [get selectedItem()]. *)
Definition selectedItem : M (option SelectedChannel) :=
  s <- get ;;
  match _selectedItemState s with
  | Obj st =>
      match parent st with
      | Some p => ret (Some (mkSelectedChannel (item st) (parent_item p)))
      | None => throwTypeError
      end
  | _ => ret None
  end.

Definition requestUpdate : M unit := modify (emit RequestUpdate).

(** [resetFocusState()]. *)
Definition resetFocusState : M unit :=
  modify (fun s =>
    set_focusList (generateFocusList (Some (_treeViewState s))) s) ;;
  requestUpdate.

(** [filterList()]. *)
Definition filterList : M unit :=
  s <- get ;;
  match _items s with
  | Some items =>
      let '(treeView, next) :=
        generateTreeViewState (Some items) (_inputValue s) None (nextRef s) in
      modify (set_treeViewState treeView next) ;;
      modify (set_focusedIndex (-1)) ;;
      resetFocusState
  | None => ret tt
  end.

(** [input.value = this._inputValue = '']. *)
Definition clearInput : M unit :=
  modify (set_inputValue "") ;;
  modify (set_inputElement (Some "")).

(** [lostFocus()]. *)
Definition lostFocus : M unit :=
  modify (set_isFocused false) ;;
  s <- get ;;
  match inputElement s with
  | Some _ =>
      sel <- selectedItem ;;
      match sel with
      | None => clearInput
      | Some _ => ret tt
      end
  | None => ret tt
  end ;;
  modify (set_isDropdownVisible false) ;;
  filterList.

(** [fireCustomEvent('selectionChanged', detail)]. *)
Definition fireSelectionChanged (detail : list (option SelectedChannel))
    : M unit :=
  modify (emit (FireSelectionChanged detail)).

(** [selectChannel(item)]. *)
Definition selectChannel (item : JsRef ChannelPickerItemState) : M unit :=
  s <- get ;;
  when (negb (sameRef (_selectedItemState s) item))
    (modify (set_selectedItemState item) ;;
     if truthy item
     then sel <- selectedItem ;; fireSelectionChanged [sel]
     else fireSelectionChanged []) ;;
  s <- get ;;
  match inputElement s with
  | Some _ => clearInput
  | None => ret tt
  end ;;
  requestUpdate ;;
  lostFocus.

(** [gainedFocus()]. *)
Definition gainedFocus : M unit :=
  modify (set_isFocused true) ;;
  s <- get ;;
  when (match inputElement s with Some _ => true | None => false end)
    (modify (emit FocusInput)) ;;
  modify (set_focusedIndex (-1)) ;;
  modify (set_isDropdownVisible true).

(** [set items(value)] for the array built by [loadState]: a new array,
    never identical to the one already stored. *)
Definition setItems (value : list DropdownItem) : M unit :=
  modify (set_items (Some value)) ;;
  s <- get ;;
  let '(treeView, next) :=
    generateTreeViewState (Some value) "" None (nextRef s) in
  modify (set_treeViewState treeView next) ;;
  resetFocusState.

(** [loadState()]. *)
Definition loadState : M unit :=
  s <- get ;;
  if signedIn (provider s) then
    if negb (scopesGranted (provider s)) then ret tt
    else
      setItems (teams (provider s)) ;;
      filterList ;;
      resetFocusState
  else
    filterList ;;
    resetFocusState.

(** Modelled from the spec: [requestStateUpdate] belongs to the base class
    [MgtTemplatedComponent], which is not among the sources; the spec says
    that it forces the load, that is, it runs [loadState]. *)
Definition requestStateUpdate : M unit := loadState.

(** The inner loop of [selectChannelById]: the first channel with the id. *)
Fixpoint findChannel (channelId : jsstring) (cs : list ChannelPickerItemState)
    : option ChannelPickerItemState :=
  match cs with
  | [] => None
  | c :: rest =>
      if (id (item c) =? channelId)%js then Some c
      else findChannel channelId rest
  end.

(** The outer loop: iterating over [item.channels] when it is undefined
    raises a [TypeError]. *)
Fixpoint searchChannels (channelId : jsstring)
    (treeView : list ChannelPickerItemState) : M bool :=
  match treeView with
  | [] => ret false
  | it :: rest =>
      match channels it with
      | None => throwTypeError
      | Some cs =>
          match findChannel channelId cs with
          | Some c => selectChannel (Obj c) ;; ret true
          | None => searchChannels channelId rest
          end
      end
  end.

(** [selectChannelById(channelId)]. *)
Definition selectChannelById (channelId : jsstring) : M bool :=
  s <- get ;;
  if signedIn (provider s) then
    match _items s with
    | None => requestStateUpdate
    | Some _ => ret tt
    end ;;
    s <- get ;;
    searchChannels channelId (_treeViewState s)
  else ret false.

(** [array[index]]: undefined outside the array. *)
Definition at_index {A : Type} (l : list A) (i : Z) : option A :=
  if (i <? 0)%Z then None else nth_error l (Z.to_nat i).

(** [item.isExpanded = !item.isExpanded] on the object with identity [r],
    wherever the tree holds it. *)
Fixpoint toggleExpanded (r : nat) (n : ChannelPickerItemState)
    : ChannelPickerItemState :=
  mkItemState (ref n) (item n)
    (if (ref n =? r)%nat then Some (negb (isTrue (isExpanded n)))
     else isExpanded n)
    (match channels n with
     | Some cs => Some (map (toggleExpanded r) cs)
     | None => None
     end)
    (parent n).

Definition toggleSelected (r : nat) (sel : JsRef ChannelPickerItemState)
    : JsRef ChannelPickerItemState :=
  match sel with
  | Obj n => Obj (toggleExpanded r n)
  | other => other
  end.

Definition toggleInPicker (r : nat) (s : Picker) : Picker :=
  set_selectedItemState (toggleSelected r (_selectedItemState s))
    (set_treeViewState (map (toggleExpanded r) (_treeViewState s))
       (nextRef s) s).

(** Key codes of [onUserKeyDown]. *)
Definition keyDown : Z := 40.
Definition keyUp : Z := 38.
Definition keyTab : Z := 9.
Definition keyEnter : Z := 13.
Definition keyBackspace : Z := 8.
Definition keyEscape : Z := 27.

(** [case 13] of the switch, which [case 9] falls through to. *)
Definition onEnter (currentFocusedItem : option ChannelPickerItemState)
    : M unit :=
  match currentFocusedItem with
  | Some cur =>
      match channels cur with
      | Some _ =>
          modify (toggleInPicker (ref cur)) ;;
          modify (fun s =>
            set_focusList (generateFocusList (Some (_treeViewState s))) s)
      | None =>
          selectChannel (Obj cur) ;;
          resetFocusState ;;
          modify (set_focusedIndex (-1)) ;;
          modify (emit PreventDefault)
      end
  | None => ret tt
  end.

(** [onUserKeyDown(event)], by [event.keyCode]. *)
Definition onUserKeyDown (keyCode : Z) : M unit :=
  when (keyCode =? keyEnter)%Z (modify (emit PreventDefault)) ;;
  s <- get ;;
  if (List.length (_treeViewState s) =? 0)%nat then ret tt
  else
    let currentFocusedItem := at_index (_focusList s) (_focusedIndex s) in
    if (keyCode =? keyDown)%Z then
      when (_focusedIndex s =? -1)%Z
        (if treeItemElement s then modify (emit FocusTreeItem)
         else throwTypeError) ;;
      when (_focusedIndex s <? Z.of_nat (List.length (_focusList s)) - 1)%Z
        (modify (set_focusedIndex (_focusedIndex s + 1)))
    else if (keyCode =? keyUp)%Z then
      if (_focusedIndex s =? 0)%Z then
        match inputElement s with
        | Some _ => modify (emit FocusInput)
        | None => throwTypeError
        end ;;
        modify (set_focusedIndex (_focusedIndex s - 1))
      else
        when (_focusedIndex s >? 0)%Z
          (modify (set_focusedIndex (_focusedIndex s - 1)))
    else if (keyCode =? keyTab)%Z then
      match currentFocusedItem with
      | None => lostFocus
      | Some _ => onEnter currentFocusedItem
      end
    else if (keyCode =? keyEnter)%Z then onEnter currentFocusedItem
    else if (keyCode =? keyBackspace)%Z then
      when ((JsString.length (_inputValue s) =? 0)%nat
            && truthy (_selectedItemState s))
        (selectChannel Null ;; modify (emit PreventDefault))
    else if (keyCode =? keyEscape)%Z then
      selectChannel (_selectedItemState s) ;;
      modify (set_focusedIndex (-1)) ;;
      resetFocusState ;;
      modify (emit PreventDefault)
    else ret tt.

(** [handleItemClick(item)]. *)
Definition handleItemClick (it : ChannelPickerItemState) : M unit :=
  match channels it with
  | Some _ => modify (toggleInPicker (ref it))
  | None => selectChannel (Obj it)
  end ;;
  modify (set_focusedIndex (-1)) ;;
  resetFocusState.

(** [clearState()]. *)
Definition clearState : M unit :=
  modify (set_items (Some [])) ;;
  modify (set_inputValue "") ;;
  modify (fun s => set_treeViewState [] (nextRef s) s) ;;
  modify (set_focusList []).

(** The component right after construction. *)
Definition initialPicker (p : Provider) (input : option jsstring)
    (treeItem : bool) : Picker :=
  mkPicker "" false Undefined None [] [] (-1) false input treeItem p 0 [].

(** ** Vocabulary of the properties *)

(** The display name of the node contains the filter, compared
    case-insensitively. *)
Definition nameContains (filter : jsstring) (n : ChannelPickerItemState) : bool :=
  includes (toLowerCase (displayName (item n))) (toLowerCase filter).

(** The leaves (nodes without [channels]) below a node, each with its
    ancestors, outermost first. *)
Fixpoint leavesOf (ancestors : list ChannelPickerItemState)
    (n : ChannelPickerItemState)
    : list (list ChannelPickerItemState * ChannelPickerItemState) :=
  match channels n with
  | None => [(ancestors, n)]
  | Some cs => flat_map (leavesOf (ancestors ++ [n])) cs
  end.

(** A leaf matches the filter itself or lies below a node that does. *)
Definition leafJustified (filter : jsstring)
    (e : list ChannelPickerItemState * ChannelPickerItemState) : bool :=
  nameContains filter (snd e) || existsb (nameContains filter) (fst e).

(** Forgetting the presentation: the source tree a presentation node
    stands for. *)
Fixpoint toSource (n : ChannelPickerItemState) : DropdownItem :=
  mkDropdownItem
    (match channels n with
     | Some cs => Some (map toSource cs)
     | None => None
     end)
    (item n).

(** No node of the subtree is expanded ([isExpanded] false or absent). *)
Fixpoint noneExpanded (n : ChannelPickerItemState) : bool :=
  negb (isTrue (isExpanded n)) &&
  match channels n with
  | Some cs => forallb noneExpanded cs
  | None => true
  end.

Definition itemEqb (a b : GraphItem) : bool :=
  (id a =? id b)%js && (displayName a =? displayName b)%js.

Definition parentEqb (a b : option ParentRef) : bool :=
  match a, b with
  | None, None => true
  | Some p, Some q =>
      (parent_ref p =? parent_ref q)%nat && itemEqb (parent_item p) (parent_item q)
  | _, _ => false
  end.

(** Every node of the subtree points back to the node that holds it;
    the root points to [par]. *)
Fixpoint parentsLinked (par : option ParentRef) (n : ChannelPickerItemState)
    : bool :=
  parentEqb (parent n) par &&
  match channels n with
  | Some cs => forallb (parentsLinked (asParent (ref n) (item n))) cs
  | None => true
  end.

(** A presentation node that copies a source node: same subtree, nothing
    expanded, parents linked. *)
Definition faithfulCopy (par : option ParentRef) (state : DropdownItem)
    (node : ChannelPickerItemState) : Prop :=
  toSource node = state /\ noneExpanded node = true
  /\ parentsLinked par node = true.

(** The identities of the objects of a subtree, in pre-order. *)
Fixpoint refsOf (n : ChannelPickerItemState) : list nat :=
  ref n ::
  match channels n with
  | Some cs => flat_map refsOf cs
  | None => []
  end.

(** Identities that are pairwise distinct and were allocated between
    [lo] (included) and [hi] (excluded). *)
Definition freshRefs (lo hi : nat) (refs : list nat) : Prop :=
  NoDup refs /\ Forall (fun r => lo <= r < hi) refs.

(** One iteration of the builder allocates identities of its own. *)
Definition allocatesFresh (state : DropdownItem) : Prop :=
  forall f par next,
    next <= snd (generateItem f par state next)
    /\ forall node, fst (generateItem f par state next) = Some node ->
         freshRefs next (snd (generateItem f par state next)) (refsOf node).

(** All the nodes below (and including) a node in pre-order, each with
    its ancestors, outermost first. *)
Fixpoint preorder (ancestors : list ChannelPickerItemState)
    (n : ChannelPickerItemState)
    : list (list ChannelPickerItemState * ChannelPickerItemState) :=
  (ancestors, n) ::
  match channels n with
  | Some cs => flat_map (preorder (ancestors ++ [n])) cs
  | None => []
  end.

(** Every ancestor of the entry is expanded. *)
Definition ancestorsExpanded
    (e : list ChannelPickerItemState * ChannelPickerItemState) : bool :=
  forallb (fun a => isTrue (isExpanded a)) (fst e).

(** The spec's flattening: the pre-order traversal restricted to the nodes
    whose ancestors are all expanded. *)
Definition visiblePreorder (tree : list ChannelPickerItemState)
    : list ChannelPickerItemState :=
  map snd (filter ancestorsExpanded (flat_map (preorder []) tree)).

(** The filter occurs in the name at position [k], up to case: the piece
    of the name of the filter's length that starts at [k] equals the filter
    once both are lower-cased. *)
Definition occursAt (name filter : jsstring) (k : nat) : Prop :=
  toLowerCase (substring k (JsString.length filter) name) = toLowerCase filter.

(** ** Sample data: the team of the spec's scenarios *)

Definition general : DropdownItem :=
  mkDropdownItem None (mkGraphItem "C1" "General").
Definition backend : DropdownItem :=
  mkDropdownItem None (mkGraphItem "C2" "Backend").
Definition engineering : DropdownItem :=
  mkDropdownItem (Some [general; backend]) (mkGraphItem "T1" "Engineering").
Definition sampleTeams : list DropdownItem := [engineering].

(** ** Effects of a call *)

(** The details of the [selectionChanged] events in a trace. *)
Definition selectionEvents (t : list Effect)
    : list (list (option SelectedChannel)) :=
  flat_map (fun e => match e with
                     | FireSelectionChanged detail => [detail]
                     | _ => []
                     end) t.

(** What a call started in [s] added to the trace. *)
Definition effectsOf {A : Type} (s : Picker) (c : Completion A)
    : list Effect :=
  skipn (List.length (trace s)) (trace (finalState c)).

(** The [selectionChanged] notifications fired by a call started in [s]. *)
Definition notifications {A : Type} (s : Picker) (c : Completion A)
    : list (list (option SelectedChannel)) :=
  selectionEvents (effectsOf s c).

(** A call started in [s] that fires no [selectionChanged]. *)
Definition quietAt {A : Type} (m : M A) (s : Picker) : Prop :=
  exists evs,
    trace (finalState (m s)) = trace s ++ evs /\ selectionEvents evs = [].

(** A method that never fires [selectionChanged]. *)
Definition silent {A : Type} (m : M A) : Prop := forall s, quietAt m s.

(** The event [selectChannel(node)] fires first when called in [s]: none
    when [node] is the current selection; the pair of the channel and its
    team for a node with a parent; the empty array for [null]. Evaluating
    the pair of a node without parent raises before anything is fired. *)
Definition announced (s : Picker) (node : JsRef ChannelPickerItemState)
    : list Effect :=
  if sameRef (_selectedItemState s) node then []
  else
    match node with
    | Obj n =>
        match parent n with
        | Some p =>
            [FireSelectionChanged
               [Some (mkSelectedChannel (item n) (parent_item p))]]
        | None => []
        end
    | _ => [FireSelectionChanged []]
    end.

(** Some channel of the source data has the id. *)
Definition sourceHasChannel (channelId : jsstring) (items : list DropdownItem)
    : bool :=
  existsb (fun t =>
    match src_channels t with
    | Some cs => existsb (fun c => (id (src_item c) =? channelId)%js) cs
    | None => false
    end) items.

(** The selection is absent or a channel that belongs to a team. *)
Definition selectionHasTeam (sel : JsRef ChannelPickerItemState) : bool :=
  match sel with
  | Obj n => match parent n with Some _ => true | None => false end
  | _ => true
  end.

(** ** Sample states *)

Definition sampleProvider : Provider := mkProvider true true sampleTeams.

(** The rendered component after the load. *)
Definition loadedPicker : Picker :=
  finalState (loadState (initialPicker sampleProvider (Some "") true)).

(** The same after the user typed a filter and the search ran. *)
Definition filteredPicker (text : jsstring) : Picker :=
  finalState (filterList (set_inputValue text
                            (set_inputElement (Some text) loadedPicker))).

(** A team whose channel request had no content. *)
Definition marketing : DropdownItem :=
  mkDropdownItem None (mkGraphItem "T2" "Marketing").

Definition loadedWithoutChannels : Picker :=
  finalState (loadState
    (initialPicker (mkProvider true true [marketing]) (Some "") true)).

(** ** Strings *)

Lemma append_empty_r (s : jsstring) : (s ++ "")%js = s.
Proof. induction s as [|c r IH]; simpl; congruence. Qed.

Lemma append_assoc (s t u : jsstring) :
  ((s ++ t) ++ u)%js = (s ++ (t ++ u))%js.
Proof. induction s as [|c r IH]; simpl; congruence. Qed.

Lemma length_append (s t : jsstring) :
  JsString.length (s ++ t)%js = JsString.length s + JsString.length t.
Proof. induction s as [|c r IH]; simpl; congruence. Qed.

Lemma jsstring_eqb_refl (s : jsstring) : (s =? s)%js = true.
Proof.
  induction s as [|c r IH]; simpl; [reflexivity|].
  now rewrite N.eqb_refl, IH.
Qed.

Lemma jsstring_eqb_eq (s t : jsstring) : (s =? t)%js = true <-> s = t.
Proof.
  split; [|intros ->; apply jsstring_eqb_refl].
  revert t. induction s as [|a s IH]; intros [|b t]; simpl;
    try discriminate; [reflexivity|].
  intro H. apply andb_true_iff in H. destruct H as [Hc Hr].
  apply N.eqb_eq in Hc. now rewrite Hc, (IH t Hr).
Qed.

Lemma jsstring_eqb_spec (s t : jsstring) : reflect (s = t) (s =? t)%js.
Proof.
  destruct (s =? t)%js eqn:E; constructor.
  - now apply jsstring_eqb_eq.
  - intro H. apply jsstring_eqb_eq in H. congruence.
Qed.

Lemma toLowerCase_append (s t : jsstring) :
  toLowerCase (s ++ t) = (toLowerCase s ++ toLowerCase t)%js.
Proof.
  induction s as [|c r IH]; simpl; [reflexivity|].
  now rewrite IH, append_assoc.
Qed.

(** *** The table of case mappings *)

(** The code units a run covers, listed. *)
Definition members (r : CaseRun) : list codeUnit :=
  map (fun i => (firstUnit r + stride r * N.of_nat i)%N)
      (seq 0 (S (N.to_nat ((lastUnit r - firstUnit r) / stride r)))).

Lemma covers_member (c : codeUnit) (r : CaseRun) :
  stride r <> 0%N -> covers c r = true -> In c (members r).
Proof.
  intros Hstep H. unfold covers in H.
  apply andb_true_iff in H. destruct H as [H Hmod].
  apply andb_true_iff in H. destruct H as [Hlo Hhi].
  apply N.leb_le in Hlo, Hhi. apply N.eqb_eq in Hmod.
  unfold members. apply in_map_iff.
  exists (N.to_nat ((c - firstUnit r) / stride r)). split.
  - rewrite N2Nat.id.
    pose proof (N.div_mod (c - firstUnit r) (stride r) Hstep) as D.
    rewrite Hmod, N.add_0_r in D. rewrite <- D. clear D Hmod. lia.
  - apply in_seq. split; [apply Nat.le_0_l|]. simpl.
    assert (Hdiv : ((c - firstUnit r) / stride r
                    <= (lastUnit r - firstUnit r) / stride r)%N)
      by (apply N.Div0.div_le_mono; lia).
    revert Hdiv.
    generalize ((c - firstUnit r) / stride r)%N
               ((lastUnit r - firstUnit r) / stride r)%N.
    intros a b Hab. lia.
Qed.

Lemma findRun_covers (c : codeUnit) (runs : list CaseRun) (r : CaseRun) :
  findRun c runs = Some r -> In r runs /\ covers c r = true.
Proof.
  induction runs as [|x rest IH]; simpl; [discriminate|].
  destruct (c <? firstUnit x)%N; [discriminate|].
  destruct (covers c x) eqn:E.
  - intros [= <-]. split; [now left | exact E].
  - intro H. destruct (IH H) as [Hin Hc]. split; [now right | exact Hc].
Qed.

(** A code unit that lower-casing leaves alone. *)
Definition settled (c : codeUnit) : bool :=
  (negb (c =? dottedI) && (simpleLower c =? c))%N.

Definition runSettled (r : CaseRun) : bool :=
  negb (stride r =? 0)%N
  && forallb (fun c => settled (image r + (c - firstUnit r))%N) (members r).

Lemma caseRuns_settled : forallb runSettled caseRuns = true.
Proof. vm_compute. reflexivity. Qed.

Lemma simpleLower_settled (c : codeUnit) :
  c <> dottedI -> settled (simpleLower c) = true.
Proof.
  intro Hc. unfold simpleLower at 1.
  destruct (findRun c caseRuns) as [r|] eqn:E.
  - destruct (findRun_covers c caseRuns r E) as [Hin Hcov].
    pose proof (proj1 (forallb_forall _ _) caseRuns_settled r Hin) as Hr.
    unfold runSettled in Hr. apply andb_true_iff in Hr.
    destruct Hr as [Hstep Hall].
    apply negb_true_iff, N.eqb_neq in Hstep.
    exact (proj1 (forallb_forall _ _) Hall c (covers_member c r Hstep Hcov)).
  - unfold settled, simpleLower. rewrite E, N.eqb_refl.
    apply N.eqb_neq in Hc. now rewrite Hc.
Qed.

Lemma lowerUnit_settled (c : codeUnit) :
  settled c = true -> lowerUnit c = Code c Empty.
Proof.
  unfold settled, lowerUnit. intro H.
  apply andb_true_iff in H. destruct H as [Hd Hs].
  apply negb_true_iff in Hd. apply N.eqb_eq in Hs. now rewrite Hd, Hs.
Qed.

Lemma lowerUnit_stable (c : codeUnit) :
  toLowerCase (lowerUnit c) = lowerUnit c.
Proof.
  unfold lowerUnit at 1 2. destruct (N.eqb_spec c dottedI) as [->|Hc].
  - reflexivity.
  - simpl. now rewrite (lowerUnit_settled _ (simpleLower_settled c Hc)).
Qed.

Lemma toLowerCase_idempotent (s : jsstring) :
  toLowerCase (toLowerCase s) = toLowerCase s.
Proof.
  induction s as [|c r IH]; simpl; [reflexivity|].
  now rewrite toLowerCase_append, lowerUnit_stable, IH.
Qed.

(** Lower-casing never shortens a string. *)
Lemma toLowerCase_length_le (s : jsstring) :
  JsString.length s <= JsString.length (toLowerCase s).
Proof.
  induction s as [|c r IH]; simpl; [lia|].
  rewrite length_append. unfold lowerUnit.
  destruct (c =? dottedI)%N; simpl; lia.
Qed.

(** On strings without U+0130 it works one code unit at a time. *)
Lemma lowerUnit_unitwise (c : codeUnit) :
  unitwise c = true -> lowerUnit c = Code (simpleLower c) Empty.
Proof.
  unfold unitwise, lowerUnit. intro H.
  apply andb_true_iff in H. destruct H as [H _].
  apply andb_true_iff in H. destruct H as [H _].
  apply negb_true_iff in H. now rewrite H.
Qed.

Lemma toLowerCase_length (s : jsstring) :
  unitwiseString s = true ->
  JsString.length (toLowerCase s) = JsString.length s.
Proof.
  induction s as [|c r IH]; simpl; [reflexivity|].
  intro H. apply andb_true_iff in H. destruct H as [Hc Hr].
  rewrite (lowerUnit_unitwise c Hc). simpl. now rewrite (IH Hr).
Qed.

Lemma includes_empty (s : jsstring) : includes s "" = true.
Proof. destruct s; reflexivity. Qed.

Lemma length_zero_empty (s : jsstring) :
  (JsString.length s =? 0)%nat = true -> s = "".
Proof. destruct s; simpl; [reflexivity | discriminate]. Qed.

Lemma length_pos_nonempty (s : jsstring) :
  s <> "" -> (0 <? JsString.length s)%nat = true.
Proof. destruct s; simpl; [congruence | reflexivity]. Qed.

(** White space has no case. *)
Lemma whiteSpace_settled : forallb settled whiteSpace = true.
Proof. vm_compute. reflexivity. Qed.

Lemma lowerUnit_whitespace (c : codeUnit) :
  isWhitespace c = true -> lowerUnit c = Code c Empty.
Proof.
  unfold isWhitespace. intro H. apply existsb_exists in H.
  destruct H as (w & Hin & Hw). apply N.eqb_eq in Hw. subst w.
  apply lowerUnit_settled.
  exact (proj1 (forallb_forall _ _) whiteSpace_settled c Hin).
Qed.

Lemma toLowerCase_whitespace (s : jsstring) :
  whitespaceOnly s = true -> toLowerCase s = s.
Proof.
  induction s as [|c r IH]; simpl; [reflexivity|].
  intro H. apply andb_true_iff in H. destruct H as [Hc Hr].
  now rewrite (lowerUnit_whitespace c Hc), (IH Hr).
Qed.

(** ** Induction over the two trees *)

Section TreeInduction.

Variable P : DropdownItem -> Prop.
Hypothesis step : forall chs it,
  (forall cs, chs = Some cs -> Forall P cs) -> P (mkDropdownItem chs it).

Fixpoint DropdownItem_nested_ind (d : DropdownItem) : P d :=
  match d with
  | mkDropdownItem chs it =>
      step chs it
        (match chs as o return forall cs, o = Some cs -> Forall P cs with
         | Some l => fun cs E =>
             match E in _ = o return
                   match o with Some x => Forall P x | None => True end with
             | eq_refl =>
                 (fix all (l : list DropdownItem) : Forall P l :=
                    match l with
                    | [] => Forall_nil P
                    | x :: r => Forall_cons x (DropdownItem_nested_ind x) (all r)
                    end) l
             end
         | None => fun cs E =>
             match E in _ = o return
                   match o with Some x => Forall P x | None => True end with
             | eq_refl => I
             end
         end)
  end.

End TreeInduction.

Section StateInduction.

Variable P : ChannelPickerItemState -> Prop.
Hypothesis step : forall r it e chs par,
  (forall cs, chs = Some cs -> Forall P cs) -> P (mkItemState r it e chs par).

Fixpoint ItemState_nested_ind (n : ChannelPickerItemState) : P n :=
  match n with
  | mkItemState r it e chs par =>
      step r it e chs par
        (match chs as o return forall cs, o = Some cs -> Forall P cs with
         | Some l => fun cs E =>
             match E in _ = o return
                   match o with Some x => Forall P x | None => True end with
             | eq_refl =>
                 (fix all (l : list ChannelPickerItemState) : Forall P l :=
                    match l with
                    | [] => Forall_nil P
                    | x :: r => Forall_cons x (ItemState_nested_ind x) (all r)
                    end) l
             end
         | None => fun cs E =>
             match E in _ = o return
                   match o with Some x => Forall P x | None => True end with
             | eq_refl => I
             end
         end)
  end.

End StateInduction.

(** ** The tree builder *)

Lemma generateItem_unfold (f : jsstring) (par : option ParentRef)
    (chs : option (list DropdownItem)) (it : GraphItem) (next : nat) :
  generateItem f par (mkDropdownItem chs it) next =
  if (JsString.length f =? 0)%nat || includes (toLowerCase (displayName it)) f
  then
    match chs with
    | Some cs =>
        let '(kids, next1) :=
          generateLoop (toLowerCase "") (asParent next it) cs (S next) in
        (Some (mkItemState next it (Some (0 <? JsString.length f)%nat)
                           (Some kids) par), next1)
    | None => (Some (mkItemState next it None None par), S next)
    end
  else
    match chs with
    | Some cs =>
        let '(kids, next1) :=
          generateLoop (toLowerCase f) (asParent next it) cs (S next) in
        if (0 <? List.length kids)%nat
        then (Some (mkItemState next it (Some true) (Some kids) par), next1)
        else (None, next1)
    | None => (None, next)
    end.
Proof. reflexivity. Qed.

Lemma generateLoop_cons (f : jsstring) (par : option ParentRef)
    (state : DropdownItem) (rest : list DropdownItem) (next : nat) :
  fst (generateLoop f par (state :: rest) next) =
  pushState (fst (generateItem f par state next))
    (fst (generateLoop f par rest (snd (generateItem f par state next)))).
Proof.
  simpl. destruct (generateItem f par state next) as [o n1]. simpl.
  destruct (generateLoop f par rest n1) as [tv n2]. reflexivity.
Qed.

(** A property of the nodes a loop pushes follows from the same property
    of what each iteration produces. *)
Lemma generateLoop_Forall (Q : ChannelPickerItemState -> Prop)
    (f : jsstring) (par : option ParentRef) (tree : list DropdownItem) :
  Forall (fun state => forall next node,
            fst (generateItem f par state next) = Some node -> Q node) tree ->
  forall next, Forall Q (fst (generateLoop f par tree next)).
Proof.
  induction 1 as [|state rest Hs _ IH]; intro next.
  - constructor.
  - rewrite generateLoop_cons.
    destruct (fst (generateItem f par state next)) as [node|] eqn:E; simpl.
    + constructor; [eapply Hs; eassumption | apply IH].
    + apply IH.
Qed.

Section Filtered.

(** A filter jsstring that is already in lower case, as every call of
    [generateTreeViewState] makes it. *)
Variable f : jsstring.
Hypothesis f_lower : toLowerCase f = f.

Let matches (n : ChannelPickerItemState) : bool :=
  includes (toLowerCase (displayName (item n))) f.

Let justified (e : list ChannelPickerItemState * ChannelPickerItemState)
    : bool :=
  matches (snd e) || existsb matches (fst e).

Lemma leaves_below_match (n : ChannelPickerItemState) :
  forall ancs, existsb matches ancs = true ->
    Forall (fun e => justified e = true) (leavesOf ancs n).
Proof.
  induction n as [r it e chs par IH] using ItemState_nested_ind.
  intros ancs Hex. simpl. destruct chs as [cs|].
  - apply Forall_flat_map. specialize (IH cs eq_refl).
    eapply Forall_impl; [|exact IH]. intros c Hc. apply Hc.
    rewrite existsb_app, Hex. reflexivity.
  - constructor; [|constructor]. unfold justified. simpl.
    rewrite Hex. apply orb_true_r.
Qed.

Lemma generateItem_leaves (state : DropdownItem) :
  forall par next node ancs,
    fst (generateItem f par state next) = Some node ->
    Forall (fun e => justified e = true) (leavesOf ancs node).
Proof.
  induction state as [chs it IH] using DropdownItem_nested_ind.
  intros par next node ancs. rewrite generateItem_unfold.
  destruct ((JsString.length f =? 0)%nat
            || includes (toLowerCase (displayName it)) f) eqn:Hm.
  - assert (Hit : includes (toLowerCase (displayName it)) f = true).
    { apply orb_true_iff in Hm. destruct Hm as [Hz|Hi]; [|exact Hi].
      apply length_zero_empty in Hz. rewrite Hz. apply includes_empty. }
    destruct chs as [cs|].
    + destruct (generateLoop (toLowerCase "") (asParent next it) cs (S next))
        as [kids n1] eqn:Ek. simpl. intros [= <-]. simpl.
      apply Forall_flat_map. apply Forall_forall. intros c _.
      apply leaves_below_match. rewrite existsb_app. simpl.
      unfold matches at 2. simpl. rewrite Hit. simpl. apply orb_true_r.
    + simpl. intros [= <-]. simpl. constructor; [|constructor].
      unfold justified, matches. simpl. rewrite Hit. reflexivity.
  - destruct chs as [cs|]; [|simpl; discriminate].
    rewrite f_lower.
    destruct (generateLoop f (asParent next it) cs (S next))
      as [kids n1] eqn:Ek.
    destruct (0 <? List.length kids)%nat; simpl; [|discriminate].
    intros [= <-]. simpl. apply Forall_flat_map.
    replace kids with (fst (generateLoop f (asParent next it) cs (S next)))
      by (rewrite Ek; reflexivity).
    apply generateLoop_Forall.
    eapply Forall_impl; [|exact (IH cs eq_refl)].
    intros state Hstate nx nd Hnd. eapply Hstate. exact Hnd.
Qed.

Lemma generateLoop_leaves (tree : list DropdownItem) (par : option ParentRef)
    (next : nat) :
  Forall (fun e => justified e = true)
    (flat_map (leavesOf []) (fst (generateLoop f par tree next))).
Proof.
  apply Forall_flat_map. apply generateLoop_Forall.
  apply Forall_forall. intros state _ nx nd Hnd.
  eapply generateItem_leaves. exact Hnd.
Qed.

(** With a non-empty filter every team the loop keeps is expanded. *)
Lemma generateLoop_expanded (tree : list DropdownItem)
    (par : option ParentRef) (next : nat) :
  f <> "" ->
  Forall (fun n => channels n <> None -> isExpanded n = Some true)
    (fst (generateLoop f par tree next)).
Proof.
  intro Hne. apply generateLoop_Forall. apply Forall_forall.
  intros [chs it] _ nx nd. rewrite generateItem_unfold.
  rewrite (length_pos_nonempty f Hne).
  destruct ((JsString.length f =? 0)%nat
            || includes (toLowerCase (displayName it)) f).
  - destruct chs as [cs|].
    + destruct (generateLoop (toLowerCase "") (asParent nx it) cs (S nx)).
      simpl. intros [= <-]. reflexivity.
    + simpl. intros [= <-]. simpl. congruence.
  - destruct chs as [cs|]; [|simpl; discriminate].
    destruct (generateLoop (toLowerCase f) (asParent nx it) cs (S nx))
      as [kids n1].
    destruct (0 <? List.length kids)%nat; simpl; [|discriminate].
    intros [= <-]. reflexivity.
Qed.

End Filtered.

(** C4: for every source tree and every filter jsstring, each leaf of the
    tree built by [generateTreeViewState] has a display name that contains
    the filter case-insensitively, or lies below a node whose own display
    name does. *)
Theorem C4_kept_leaves_are_justified (T : list DropdownItem) (f : jsstring)
    (parent : option ParentRef) (next : nat) :
  Forall (fun e => leafJustified f e = true)
    (flat_map (leavesOf [])
       (fst (generateTreeViewState (Some T) f parent next))).
Proof.
  unfold generateTreeViewState.
  exact (generateLoop_leaves (toLowerCase f) (toLowerCase_idempotent f)
           T parent next).
Qed.

(** *** The empty filter *)

Lemma itemEqb_refl (a : GraphItem) : itemEqb a a = true.
Proof. unfold itemEqb. now rewrite !jsstring_eqb_refl. Qed.

Lemma parentEqb_refl (p : option ParentRef) : parentEqb p p = true.
Proof.
  destruct p as [p|]; simpl; [|reflexivity].
  now rewrite Nat.eqb_refl, itemEqb_refl.
Qed.

Lemma generateLoop_empty_copies (tree : list DropdownItem)
    (par : option ParentRef) :
  Forall (fun state => forall next, exists node,
            fst (generateItem "" par state next) = Some node
            /\ faithfulCopy par state node) tree ->
  forall next,
    let treeView := fst (generateLoop "" par tree next) in
    map toSource treeView = tree
    /\ forallb noneExpanded treeView = true
    /\ forallb (parentsLinked par) treeView = true.
Proof.
  induction 1 as [|state rest Hs _ IH]; intro next.
  - repeat split.
  - cbv zeta. rewrite generateLoop_cons.
    destruct (Hs next) as (node & -> & Hsrc & Hexp & Hpar).
    destruct (IH (snd (generateItem "" par state next))) as (H1 & H2 & H3).
    simpl. rewrite Hsrc, H1, Hexp, H2, Hpar, H3. repeat split.
Qed.

Lemma generateItem_empty_copies (state : DropdownItem) :
  forall par next, exists node,
    fst (generateItem "" par state next) = Some node
    /\ faithfulCopy par state node.
Proof.
  induction state as [chs it IH] using DropdownItem_nested_ind.
  intros par next. rewrite generateItem_unfold. simpl.
  destruct chs as [cs|].
  - pose proof (generateLoop_empty_copies cs (asParent next it)) as HL.
    destruct (generateLoop "" (asParent next it) cs (S next))
      as [kids n1] eqn:Ek.
    eexists; split; [reflexivity|].
    destruct (HL (Forall_impl _ (fun s Hs => Hs (asParent next it))
                    (IH cs eq_refl)) (S next)) as (H1 & H2 & H3).
    rewrite Ek in H1, H2, H3. simpl in H1, H2, H3.
    unfold faithfulCopy. simpl. rewrite H1, H2, H3, parentEqb_refl.
    repeat split.
  - eexists; split; [reflexivity|].
    unfold faithfulCopy. simpl. rewrite parentEqb_refl. repeat split.
Qed.

(** C5: building with the empty filter yields a tree isomorphic to the
    source: forgetting the presentation gives back the source tree (same
    nodes, same order, same children), no node is expanded and every node
    points back to the node that holds it. *)
Theorem C5_empty_filter_copies_the_tree (T : list DropdownItem)
    (parent : option ParentRef) (next : nat) :
  let treeView := fst (generateTreeViewState (Some T) "" parent next) in
  map toSource treeView = T
  /\ forallb noneExpanded treeView = true
  /\ forallb (parentsLinked parent) treeView = true.
Proof.
  unfold generateTreeViewState. simpl toLowerCase.
  apply generateLoop_empty_copies.
  apply Forall_forall. intros state _ nx.
  apply generateItem_empty_copies.
Qed.

(** *** Whitespace in the filter *)

(** C6, as stated, fails: a filter of one space is not treated as the
    empty filter; on the sample team it removes every node. *)
Lemma C6_counterexample :
  ~ (forall (T : list DropdownItem) (f : jsstring),
       whitespaceOnly f = true ->
       fst (generateTreeViewState (Some T) f None 0)
       = fst (generateTreeViewState (Some T) "" None 0)).
Proof.
  intro H. specialize (H sampleTeams " " eq_refl).
  vm_compute in H. discriminate H.
Qed.

(** C6, amended: only the filter of length zero means "no filter". The
    filter is not trimmed: a non-empty filter made of whitespace is used as
    it is (lower-casing leaves it unchanged) and filters like any other
    jsstring: every leaf that is kept contains it or lies below a node that
    does, and every team that is kept is marked expanded. *)
Theorem C6_whitespace_filter_is_literal (T : list DropdownItem) (f : jsstring)
    (parent : option ParentRef) (next : nat) :
  whitespaceOnly f = true ->
  f <> "" ->
  let treeView := fst (generateTreeViewState (Some T) f parent next) in
  treeView = fst (generateLoop f parent T next)
  /\ Forall (fun e => leafJustified f e = true)
       (flat_map (leavesOf []) treeView)
  /\ Forall (fun n => channels n <> None -> isExpanded n = Some true)
       treeView.
Proof.
  intros Hws Hne. unfold generateTreeViewState.
  pose proof (toLowerCase_whitespace f Hws) as Hlow.
  cbv zeta. rewrite Hlow. split; [reflexivity|]. split.
  - pose proof (generateLoop_leaves f Hlow T parent next) as HL.
    unfold leafJustified, nameContains. rewrite Hlow. exact HL.
  - apply generateLoop_expanded; assumption.
Qed.

Lemma C6_whitespace_filter_is_literal_witness :
  let treeView := fst (generateTreeViewState (Some sampleTeams) " " None 0) in
  treeView = fst (generateLoop " " None sampleTeams 0)
  /\ Forall (fun e => leafJustified " " e = true)
       (flat_map (leavesOf []) treeView)
  /\ Forall (fun n => channels n <> None -> isExpanded n = Some true)
       treeView.
Proof.
  apply (C6_whitespace_filter_is_literal sampleTeams " " None 0).
  - reflexivity.
  - discriminate.
Defined.

(** ** The focus list *)

Lemma focusItem_unfold (n : ChannelPickerItemState) :
  focusItem n =
  n :: match channels n with
       | Some cs => if isTrue (isExpanded n) then focusLoop cs else []
       | None => []
       end.
Proof. destruct n; reflexivity. Qed.

Lemma hidden_subtree (cs : list ChannelPickerItemState)
    (ancs : list ChannelPickerItemState) :
  Forall (fun c => filter ancestorsExpanded (preorder ancs c) = []) cs ->
  filter ancestorsExpanded (flat_map (preorder ancs) cs) = [].
Proof.
  induction 1 as [|c r Hc _ IH]; simpl; [reflexivity|].
  now rewrite filter_app, Hc, IH.
Qed.

Lemma shown_subtree (cs : list ChannelPickerItemState)
    (ancs : list ChannelPickerItemState) :
  Forall (fun c => map snd (filter ancestorsExpanded (preorder ancs c))
                   = focusItem c) cs ->
  map snd (filter ancestorsExpanded (flat_map (preorder ancs) cs))
  = focusLoop cs.
Proof.
  induction 1 as [|c r Hc _ IH]; simpl; [reflexivity|].
  now rewrite filter_app, map_app, Hc, IH.
Qed.

Lemma preorder_filtered (n : ChannelPickerItemState) :
  forall ancs,
    (forallb (fun a => isTrue (isExpanded a)) ancs = true ->
     map snd (filter ancestorsExpanded (preorder ancs n)) = focusItem n)
    /\ (forallb (fun a => isTrue (isExpanded a)) ancs = false ->
        filter ancestorsExpanded (preorder ancs n) = []).
Proof.
  induction n as [r it e chs par IH] using ItemState_nested_ind.
  intro ancs. set (n := mkItemState r it e chs par).
  split; intro Hanc.
  - rewrite focusItem_unfold. simpl preorder. simpl filter.
    unfold ancestorsExpanded at 1. simpl fst. rewrite Hanc. simpl.
    f_equal. destruct chs as [cs|]; [|reflexivity].
    specialize (IH cs eq_refl).
    destruct (isTrue e) eqn:He.
    + apply shown_subtree. eapply Forall_impl; [|exact IH].
      intros c Hc. apply (Hc (ancs ++ [n])).
      rewrite forallb_app, Hanc. simpl. now rewrite He.
    + rewrite hidden_subtree; [reflexivity|].
      eapply Forall_impl; [|exact IH].
      intros c Hc. apply (Hc (ancs ++ [n])).
      rewrite forallb_app, Hanc. simpl. now rewrite He.
  - simpl preorder. simpl filter.
    unfold ancestorsExpanded at 1. simpl fst. rewrite Hanc.
    destruct chs as [cs|]; [|reflexivity].
    apply hidden_subtree. eapply Forall_impl; [|exact (IH cs eq_refl)].
    intros c Hc. apply (Hc (ancs ++ [n])).
    rewrite forallb_app, Hanc. reflexivity.
Qed.

(** C8: the focus list is the pre-order, depth-first traversal of the
    presentation tree (each node before its children, children in order)
    restricted to the nodes all of whose ancestors are expanded; so it holds
    no node below a node that is not expanded. *)
Theorem C8_focus_list_is_visible_preorder
    (tree : list ChannelPickerItemState) :
  generateFocusList (Some tree) = visiblePreorder tree
  /\ generateFocusList (Some tree)
     = flat_map (fun n =>
         n :: (if isTrue (isExpanded n)
               then generateFocusList (channels n) else [])) tree.
Proof.
  split.
  - unfold visiblePreorder. simpl. symmetry. apply shown_subtree.
    apply Forall_forall. intros c _.
    apply (proj1 (preorder_filtered c [])). reflexivity.
  - simpl. induction tree as [|n r IH]; simpl; [reflexivity|].
    rewrite focusItem_unfold, IH. simpl. f_equal. f_equal.
    destruct (channels n); destruct (isTrue (isExpanded n)); reflexivity.
Qed.

(** *** Object identities

    Every object the builder makes gets an identity of its own, later than
    every identity handed out before: nodes of one tree are pairwise
    distinct, and a rebuilt tree shares no node with an older one. *)

Lemma freshRefs_widen (lo hi lo' hi' : nat) (refs : list nat) :
  lo' <= lo -> hi <= hi' -> freshRefs lo hi refs -> freshRefs lo' hi' refs.
Proof.
  intros Hlo Hhi [Hnd Hrange]. split; [exact Hnd|].
  eapply Forall_impl; [|exact Hrange]. simpl. intros r Hr. lia.
Qed.

Lemma freshRefs_app (lo mid hi : nat) (a b : list nat) :
  freshRefs lo mid a -> freshRefs mid hi b -> lo <= mid -> mid <= hi ->
  freshRefs lo hi (a ++ b).
Proof.
  intros [Na Ra] [Nb Rb] Hlo Hhi. split.
  - apply NoDup_app; [exact Na | exact Nb |].
    intros r Hina Hinb.
    pose proof (proj1 (Forall_forall _ _) Ra r Hina).
    pose proof (proj1 (Forall_forall _ _) Rb r Hinb). cbv beta in *. lia.
  - apply Forall_app. split.
    + eapply Forall_impl; [|exact Ra]. simpl. intros r Hr. lia.
    + eapply Forall_impl; [|exact Rb]. simpl. intros r Hr. lia.
Qed.

Lemma freshRefs_cons (next hi : nat) (refs : list nat) :
  freshRefs (S next) hi refs -> S next <= hi ->
  freshRefs next hi (next :: refs).
Proof.
  intros [Nd Rg] Hhi. split.
  - constructor; [|exact Nd]. intro Hin.
    pose proof (proj1 (Forall_forall _ _) Rg next Hin). cbv beta in *. lia.
  - constructor; [lia|].
    eapply Forall_impl; [|exact Rg]. simpl. intros r Hr. lia.
Qed.

Lemma generateLoop_fresh (tree : list DropdownItem) :
  Forall allocatesFresh tree ->
  forall f par next,
    next <= snd (generateLoop f par tree next)
    /\ freshRefs next (snd (generateLoop f par tree next))
         (flat_map refsOf (fst (generateLoop f par tree next))).
Proof.
  induction 1 as [|state rest Hs _ IH]; intros f par next.
  - simpl. repeat split; constructor.
  - simpl. destruct (Hs f par next) as [Hle Hnode].
    destruct (generateItem f par state next) as [o n1]. simpl in Hle, Hnode.
    destruct (IH f par n1) as [Hle2 Hfresh].
    destruct (generateLoop f par rest n1) as [tv n2]. simpl in Hle2, Hfresh.
    simpl. split; [lia|].
    destruct o as [node|]; simpl.
    + apply (freshRefs_app next n1 n2); auto.
    + apply (freshRefs_widen n1 n2); auto.
Qed.

Lemma generateItem_fresh (state : DropdownItem) : allocatesFresh state.
Proof.
  induction state as [chs it IH] using DropdownItem_nested_ind.
  intros f par next. rewrite generateItem_unfold.
  destruct ((JsString.length f =? 0)%nat
            || includes (toLowerCase (displayName it)) f).
  - destruct chs as [cs|].
    + destruct (generateLoop_fresh cs (IH cs eq_refl) (toLowerCase "")
                  (asParent next it) (S next)) as [Hle Hfresh].
      destruct (generateLoop (toLowerCase "") (asParent next it) cs (S next))
        as [kids n1]. simpl in Hle, Hfresh |- *.
      split; [lia|]. intros node [= <-]. simpl.
      apply freshRefs_cons; assumption.
    + simpl. split; [lia|]. intros node [= <-]. simpl.
      apply freshRefs_cons; [|lia]. split; constructor.
  - destruct chs as [cs|].
    + destruct (generateLoop_fresh cs (IH cs eq_refl) (toLowerCase f)
                  (asParent next it) (S next)) as [Hle Hfresh].
      destruct (generateLoop (toLowerCase f) (asParent next it) cs (S next))
        as [kids n1]. simpl in Hle, Hfresh.
      destruct (0 <? List.length kids)%nat; simpl.
      * split; [lia|]. intros node [= <-]. simpl.
        apply freshRefs_cons; assumption.
      * split; [lia | discriminate].
    + simpl. split; [lia | discriminate].
Qed.

Lemma generateTreeViewState_fresh (tree : option (list DropdownItem))
    (f : jsstring) (par : option ParentRef) (next : nat) :
  next <= snd (generateTreeViewState tree f par next)
  /\ freshRefs next (snd (generateTreeViewState tree f par next))
       (flat_map refsOf (fst (generateTreeViewState tree f par next))).
Proof.
  unfold generateTreeViewState. destruct tree as [tree|].
  - apply generateLoop_fresh. apply Forall_forall. intros state _.
    apply generateItem_fresh.
  - simpl. repeat split; constructor.
Qed.

(** ** The highlight formatter *)

Lemma substring_zero_length (s : jsstring) (n : nat) : substring n 0 s = "".
Proof.
  revert s. induction n as [|n IH]; intros [|c r]; simpl; auto.
Qed.

Lemma substring_length (s : jsstring) :
  forall n m,
    JsString.length (substring n m s) = Nat.min m (JsString.length s - n).
Proof.
  induction s as [|c r IH]; intros [|n] [|m]; simpl; auto;
    rewrite IH; rewrite ?Nat.sub_0_r; reflexivity.
Qed.

Lemma substring_unitwise (s : jsstring) :
  unitwiseString s = true ->
  forall n m, unitwiseString (substring n m s) = true.
Proof.
  induction s as [|c r IH]; intros H [|n] [|m]; simpl; auto;
    simpl in H; apply andb_true_iff in H; destruct H as [Hc Hr].
  - now rewrite Hc, (IH Hr).
  - now apply IH.
  - now apply IH.
Qed.

Lemma substring_toLowerCase (s : jsstring) :
  unitwiseString s = true ->
  forall n m, substring n m (toLowerCase s) = toLowerCase (substring n m s).
Proof.
  induction s as [|c r IH]; intros H [|n] [|m]; simpl; auto;
    simpl in H; apply andb_true_iff in H; destruct H as [Hc Hr];
    rewrite (lowerUnit_unitwise c Hc); simpl; rewrite ?(IH Hr); reflexivity.
Qed.

Lemma substring_prefix_split (s : jsstring) :
  forall a b,
    (substring 0 a s ++ substring a b s)%js = substring 0 (a + b) s.
Proof.
  induction s as [|c r IH]; intros [|a] b; simpl.
  - destruct b; reflexivity.
  - reflexivity.
  - destruct b; reflexivity.
  - now rewrite IH.
Qed.

Lemma substring_split (s : jsstring) :
  forall n a b,
    (substring n a s ++ substring (n + a) b s)%js = substring n (a + b) s.
Proof.
  induction s as [|c r IH]; intros [|n] a b.
  - apply (substring_prefix_split "" a b).
  - simpl. reflexivity.
  - apply (substring_prefix_split (Code c r) a b).
  - simpl. apply IH.
Qed.

Lemma substring_whole (s : jsstring) : substring 0 (JsString.length s) s = s.
Proof. induction s as [|c r IH]; simpl; congruence. Qed.

(** [slice] between two positions of the string, in order. *)
Lemma slice_within (s : jsstring) (b e : nat) :
  b <= e -> e <= JsString.length s ->
  slice s (Z.of_nat b) (Z.of_nat e) = substring b (e - b) s.
Proof.
  intros Hbe He. unfold slice, clampIndex.
  destruct (Z.ltb_spec (Z.of_nat b) 0) as [Hneg|_]; [lia|].
  destruct (Z.ltb_spec (Z.of_nat e) 0) as [Hneg|_]; [lia|].
  rewrite !Z.min_l by lia.
  destruct (Z.ltb_spec (Z.of_nat b) (Z.of_nat e)) as [Hlt|Hge].
  - rewrite Nat2Z.id. f_equal. lia.
  - replace (e - b) with 0 by lia. now rewrite substring_zero_length.
Qed.

(** [startsWith] compares the piece at the front. *)
Lemma startsWith_substring (s t : jsstring) :
  startsWith s t = true <-> substring 0 (JsString.length t) s = t.
Proof.
  revert s. induction t as [|b t IH]; intros [|a s]; simpl;
    try (split; [reflexivity | auto]); try (split; discriminate).
  split.
  - intro H. apply andb_true_iff in H. destruct H as [Hc Hr].
    apply N.eqb_eq in Hc. apply IH in Hr. congruence.
  - intros [= -> H]. rewrite N.eqb_refl. now apply IH.
Qed.

(** [search] finds the first position where the pattern occurs. *)
Lemma search_unfold (s t : jsstring) :
  search s t
  = if startsWith s t then Some 0
    else match s with
         | Empty => None
         | Code _ r => option_map S (search r t)
         end.
Proof. destruct s; reflexivity. Qed.

Lemma search_found (s t : jsstring) :
  forall k, search s t = Some k ->
    substring k (JsString.length t) s = t
    /\ forall p, p < k -> substring p (JsString.length t) s <> t.
Proof.
  induction s as [|c r IH]; intro k; rewrite search_unfold.
  - destruct (startsWith "" t) eqn:E; [|discriminate].
    intros [= <-]. split; [now apply startsWith_substring | lia].
  - destruct (startsWith (Code c r) t) eqn:E.
    + intros [= <-]. split; [now apply startsWith_substring | lia].
    + destruct (search r t) as [m|] eqn:Er; [|discriminate].
      cbn [option_map]. intros [= <-].
      destruct (IH m eq_refl) as [Hm Hleast]. split.
      * destruct (JsString.length t); exact Hm.
      * intros [|p] Hp.
        -- intro H. apply startsWith_substring in H. congruence.
        -- assert (Hp' : p < m) by lia.
           pose proof (Hleast p Hp') as Hn.
           destruct (JsString.length t); exact Hn.
Qed.

Lemma search_absent (s t : jsstring) :
  search s t = None -> forall p, substring p (JsString.length t) s <> t.
Proof.
  induction s as [|c r IH]; rewrite search_unfold.
  - destruct (startsWith "" t) eqn:E; [discriminate|]. intros _ p H.
    assert (H0 : substring 0 (JsString.length t) "" = t)
      by (destruct p, (JsString.length t); exact H).
    apply startsWith_substring in H0. congruence.
  - destruct (startsWith (Code c r) t) eqn:E; [discriminate|].
    destruct (search r t) as [m|] eqn:Er; [discriminate|].
    intros _ [|p] H.
    + apply startsWith_substring in H. congruence.
    + apply (IH eq_refl p). destruct (JsString.length t); exact H.
Qed.

Lemma search_first (s t : jsstring) (k : nat) :
  substring k (JsString.length t) s = t ->
  (forall p, p < k -> substring p (JsString.length t) s <> t) ->
  search s t = Some k.
Proof.
  intros Hk Hmin. destruct (search s t) as [m|] eqn:E.
  - destruct (search_found s t m E) as [Hm Hleast]. f_equal.
    destruct (Nat.lt_trichotomy m k) as [Hlt|[Heq|Hgt]].
    + exfalso. exact (Hmin m Hlt Hm).
    + exact Heq.
    + exfalso. exact (Hleast k Hgt Hk).
  - exfalso. exact (search_absent s t E k Hk).
Qed.

(** For a name and a filter that lower-case one code unit at a time, an
    occurrence up to case in the name is an occurrence of the lower-cased
    filter in the lower-cased name, at the same position. *)
Section Unitwise.

Variables name f : jsstring.
Hypothesis name_unitwise : unitwiseString name = true.
Hypothesis f_unitwise : unitwiseString f = true.

Lemma occursAt_lower (k : nat) :
  occursAt name f k <->
  substring k (JsString.length (toLowerCase f)) (toLowerCase name)
  = toLowerCase f.
Proof.
  unfold occursAt.
  now rewrite (toLowerCase_length f f_unitwise),
              (substring_toLowerCase name name_unitwise).
Qed.

Lemma occursAt_fits (k : nat) :
  occursAt name f k -> (forall p, p < k -> ~ occursAt name f p) ->
  k + JsString.length f <= JsString.length name.
Proof.
  intros Hk Hmin. destruct f as [|c r] eqn:Ef.
  - destruct k as [|k]; [simpl; lia|].
    exfalso. apply (Hmin 0); [lia|]. unfold occursAt.
    simpl JsString.length. now rewrite substring_zero_length.
  - rewrite <- Ef in *. unfold occursAt in Hk.
    apply (f_equal JsString.length) in Hk.
    rewrite (toLowerCase_length f f_unitwise) in Hk.
    rewrite (toLowerCase_length _ (substring_unitwise name name_unitwise _ _))
      in Hk.
    rewrite substring_length in Hk.
    assert (0 < JsString.length f) by (rewrite Ef; simpl; lia). lia.
Qed.

Lemma indexOf_absent :
  (forall k, ~ occursAt name f k) ->
  indexOf (toLowerCase name) (toLowerCase f) = (-1)%Z.
Proof.
  intro Hno. unfold indexOf.
  destruct (search (toLowerCase name) (toLowerCase f)) as [m|] eqn:E;
    [|reflexivity].
  exfalso. apply (Hno m). apply occursAt_lower.
  exact (proj1 (search_found _ _ m E)).
Qed.

Lemma indexOf_first (k : nat) :
  occursAt name f k -> (forall p, p < k -> ~ occursAt name f p) ->
  indexOf (toLowerCase name) (toLowerCase f) = Z.of_nat k.
Proof.
  intros Hk Hmin. unfold indexOf.
  rewrite (search_first _ _ k); [reflexivity | |].
  - now apply occursAt_lower.
  - intros p Hp Hocc. apply (Hmin p Hp). now apply occursAt_lower.
Qed.

End Unitwise.

(** The formatter on a name and a filter without U+0130 (and without
    capital sigma and surrogates): when the filter does not occur in the
    display name, compared case-insensitively, the three parts are [""],
    [""] and the whole name; when it does, with first occurrence at [k],
    the parts are the pieces of the display name itself before [k], of the
    filter's length from [k], and after. *)
Lemma highlight_splits_unitwise (channelId name filter : jsstring) :
  unitwiseString name = true ->
  unitwiseString filter = true ->
  let channel := mkGraphItem channelId name in
  ((forall k, ~ occursAt name filter k) ->
   renderHighlightedText filter channel = ("", "", name))
  /\ (forall k,
        occursAt name filter k ->
        (forall p, p < k -> ~ occursAt name filter p) ->
        exists before matched after,
          renderHighlightedText filter channel = (before, matched, after)
          /\ before = substring 0 k name
          /\ matched = substring k (JsString.length filter) name
          /\ (before ++ matched ++ after)%js = name
          /\ JsString.length before = k
          /\ JsString.length matched = JsString.length filter
          /\ toLowerCase matched = toLowerCase filter
          /\ (k + JsString.length filter = JsString.length name ->
              after = "")).
Proof.
  intros Hname Hfilter channel. split.
  - intro Hno. unfold renderHighlightedText, highlightParts. simpl displayName.
    rewrite (indexOf_absent name filter Hname Hfilter Hno). reflexivity.
  - intros k Hk Hmin.
    pose proof (occursAt_fits name filter Hname Hfilter k Hk Hmin) as Hfit.
    set (m := JsString.length filter) in *.
    set (len := JsString.length name) in *.
    exists (substring 0 k name), (substring k m name),
           (substring (k + m) (len - (k + m)) name).
    assert (Hcat : (substring 0 k name ++ substring k m name
                    ++ substring (k + m) (len - (k + m)) name)%js = name).
    { rewrite substring_split, (substring_prefix_split name k).
      replace (k + (m + (len - (k + m)))) with len by lia.
      apply substring_whole. }
    assert (Hb : JsString.length (substring 0 k name) = k).
    { rewrite substring_length. fold len. lia. }
    assert (Hm : JsString.length (substring k m name) = m).
    { rewrite substring_length. fold len. lia. }
    assert (Hend : k + m = len ->
                   substring (k + m) (len - (k + m)) name = "").
    { intro E. replace (len - (k + m)) with 0 by lia.
      apply substring_zero_length. }
    repeat split; try assumption; try exact Hk.
    unfold renderHighlightedText, highlightParts. simpl displayName.
    rewrite (indexOf_first name filter Hname Hfilter k Hk Hmin). fold m len.
    destruct (Z.eqb_spec (Z.of_nat k) (-1)) as [Hneg|_]; [lia|]. simpl negb.
    cbv iota.
    destruct (Z.eqb_spec (Z.of_nat k) 0) as [Hzero|Hpos].
    + assert (k = 0) by lia. subst k. simpl spanText.
      change 0%Z with (Z.of_nat 0).
      rewrite !slice_within by lia.
      rewrite Nat.sub_0_r, substring_zero_length. reflexivity.
    + destruct (Z.eqb_spec (Z.of_nat k) (Z.of_nat len)) as [Hlast|Hmid].
      * assert (k = len) by lia. assert (m = 0) by lia.
        exfalso. apply (Hmin 0); [lia|].
        unfold occursAt. fold m. replace m with 0 by lia.
        rewrite substring_zero_length.
        assert (filter = "") as ->
          by (destruct filter; [reflexivity | simpl in m; lia]).
        reflexivity.
      * simpl spanText. rewrite <- Nat2Z.inj_add.
        change 0%Z with (Z.of_nat 0).
        rewrite !slice_within by lia.
        rewrite Nat.sub_0_r. repeat f_equal. lia.
Qed.

(** C7 fails on the code for a display name with the letter U+0130 in
    front of the match. The filter [back] occurs in [İstanbul Backend],
    compared case-insensitively, at position 9 and nowhere before, and the
    piece of the name there is [Back]. The position the code uses is the one
    found in the lower-cased name, which is one code unit longer (U+0130
    lower-cases to two code units): 10. Applied to the name itself it cuts
    out [acke], which is not the filter up to case, after [İstanbul B]. *)
Theorem C7_highlight_misplaced_after_dotted_I :
  let name := Code dottedI "stanbul Backend" in
  let channel := mkGraphItem "C3" name in
  occursAt name "back" 9
  /\ (forall p, p < 9 -> ~ occursAt name "back" p)
  /\ substring 9 (JsString.length "back") name = "Back"
  /\ indexOf (toLowerCase name) (toLowerCase "back") = 10%Z
  /\ renderHighlightedText "back" channel
     = (Code dottedI "stanbul B", "acke", "nd")
  /\ toLowerCase "acke" <> toLowerCase "back".
Proof.
  cbv zeta. split; [reflexivity|]. split.
  - intros p Hp. unfold occursAt.
    do 9 (destruct p as [|p]; [vm_compute; discriminate|]). lia.
  - split; [reflexivity|]. split; [reflexivity|].
    split; [reflexivity|]. vm_compute. discriminate.
Qed.

(** ** Traces *)

Lemma selectionEvents_app (a b : list Effect) :
  selectionEvents (a ++ b) = selectionEvents a ++ selectionEvents b.
Proof. unfold selectionEvents. apply flat_map_app. Qed.

Lemma effectsOf_extension {A : Type} (s : Picker) (c : Completion A)
    (evs : list Effect) :
  trace (finalState c) = trace s ++ evs -> effectsOf s c = evs.
Proof.
  intro H. unfold effectsOf. rewrite H.
  generalize (trace s). intro t.
  induction t as [|e t IH]; simpl; auto.
Qed.

Lemma silent_ret {A : Type} (a : A) : silent (ret a).
Proof. intro s. exists []. simpl. now rewrite app_nil_r. Qed.

Lemma silent_get : silent get.
Proof. intro s. exists []. simpl. now rewrite app_nil_r. Qed.

Lemma silent_throw {A : Type} : silent (@throwTypeError A).
Proof. intro s. exists []. simpl. now rewrite app_nil_r. Qed.

Lemma silent_modify (f : Picker -> Picker) :
  (forall s, trace (f s) = trace s) -> silent (modify f).
Proof. intros H s. exists []. simpl. now rewrite H, app_nil_r. Qed.

Lemma silent_emit (e : Effect) :
  selectionEvents [e] = [] -> silent (modify (emit e)).
Proof. intros H s. exists [e]. simpl. auto. Qed.

Lemma quietAt_bind {A B : Type} (m : M A) (k : A -> M B) (s : Picker) :
  quietAt m s -> (forall a, silent (k a)) -> quietAt (bind m k) s.
Proof.
  intros (e1 & T1 & S1) Hk. unfold quietAt, bind.
  destruct (m s) as [a s1|s1]; simpl in T1.
  - destruct (Hk a s1) as (e2 & T2 & S2). exists (e1 ++ e2).
    rewrite T2, T1, app_assoc, selectionEvents_app, S1, S2. auto.
  - exists e1. simpl. auto.
Qed.

Lemma silent_bind {A B : Type} (m : M A) (k : A -> M B) :
  silent m -> (forall a, silent (k a)) -> silent (bind m k).
Proof. intros Hm Hk s. apply quietAt_bind; auto. Qed.

Lemma silent_when (b : bool) (m : M unit) : silent m -> silent (when b m).
Proof. destruct b; simpl; auto using silent_ret. Qed.

Ltac silence :=
  repeat first
    [ apply silent_bind; [|intro]
    | apply silent_ret
    | apply silent_get
    | apply silent_throw
    | apply silent_when
    | apply silent_emit; reflexivity
    | apply silent_modify; intro; reflexivity
    | match goal with
      | |- silent (match ?x with _ => _ end) => destruct x
      end ].

Lemma silent_selectedItem : silent selectedItem.
Proof. unfold selectedItem. silence. Qed.

Lemma silent_resetFocusState : silent resetFocusState.
Proof. unfold resetFocusState, requestUpdate. silence. Qed.

Lemma silent_filterList : silent filterList.
Proof. unfold filterList, resetFocusState, requestUpdate. silence. Qed.

Lemma silent_lostFocus : silent lostFocus.
Proof.
  unfold lostFocus, clearInput. silence;
    auto using silent_selectedItem, silent_filterList.
Qed.

Lemma sameRef_refl (a : JsRef ChannelPickerItemState) : sameRef a a = true.
Proof. destruct a; simpl; auto using Nat.eqb_refl. Qed.

(** ** Selection *)

(** What [selectChannel] adds to the trace: the announcement, then only
    other effects; stated for any silent code after the test. *)
Lemma select_then (tail : M unit) (node : JsRef ChannelPickerItemState)
    (s : Picker) :
  silent tail ->
  exists evs,
    trace (finalState
      ((s0 <- get ;;
        when (negb (sameRef (_selectedItemState s0) node))
          (modify (set_selectedItemState node) ;;
           if truthy node
           then sel <- selectedItem ;; fireSelectionChanged [sel]
           else fireSelectionChanged []) ;;
        tail) s))
    = trace s ++ announced s node ++ evs
    /\ selectionEvents evs = [].
Proof.
  intro Htail. unfold announced.
  unfold selectedItem, fireSelectionChanged.
  unfold bind, get, when, modify, ret, throwTypeError.
  destruct (sameRef (_selectedItemState s) node); simpl.
  - apply Htail.
  - destruct node as [| |n]; simpl; try destruct (parent n) as [p|]; simpl;
      try (exists []; rewrite app_nil_r; split; reflexivity);
      match goal with
      | |- context [tail ?x] =>
          destruct (Htail x) as (evs & T & S);
          exists evs; rewrite T; simpl; rewrite <- app_assoc; auto
      end.
Qed.

Lemma selectChannel_trace (node : JsRef ChannelPickerItemState) (s : Picker) :
  exists evs,
    trace (finalState (selectChannel node s))
    = trace s ++ announced s node ++ evs
    /\ selectionEvents evs = [].
Proof.
  unfold selectChannel. apply select_then.
  unfold clearInput, requestUpdate. silence; apply silent_lostFocus.
Qed.

Lemma selectChannel_notifications (node : JsRef ChannelPickerItemState)
    (s : Picker) :
  notifications s (selectChannel node s) = selectionEvents (announced s node).
Proof.
  destruct (selectChannel_trace node s) as (evs & T & S).
  unfold notifications. rewrite (effectsOf_extension _ _ _ T).
  now rewrite selectionEvents_app, S, app_nil_r.
Qed.

Lemma quiet_notifications {A : Type} (m : M A) (s : Picker) :
  quietAt m s -> notifications s (m s) = [].
Proof.
  intros (evs & T & S). unfold notifications.
  now rewrite (effectsOf_extension _ _ _ T).
Qed.

Lemma reselect_quiet (s s0 : Picker) :
  _selectedItemState s0 = _selectedItemState s ->
  quietAt (selectChannel (_selectedItemState s)) s0.
Proof.
  intro E. destruct (selectChannel_trace (_selectedItemState s) s0)
    as (evs & T & S).
  exists evs. split; [|exact S]. rewrite T. unfold announced.
  now rewrite E, sameRef_refl.
Qed.

Lemma escape_quiet (s : Picker) : quietAt (onUserKeyDown keyEscape) s.
Proof.
  unfold onUserKeyDown. change (keyEscape =? keyEnter)%Z with false.
  change (keyEscape =? keyDown)%Z with false.
  change (keyEscape =? keyUp)%Z with false.
  change (keyEscape =? keyTab)%Z with false.
  change (keyEscape =? keyBackspace)%Z with false.
  change (keyEscape =? keyEscape)%Z with true. cbv iota.
  unfold quietAt, bind at 1 2, when, ret, get.
  destruct (List.length (_treeViewState s) =? 0)%nat.
  - exists []. simpl. now rewrite app_nil_r.
  - apply quietAt_bind; [apply reselect_quiet; reflexivity|].
    intro. unfold resetFocusState, requestUpdate. silence.
Qed.

(** C9: selecting the node that is already the current selection fires no
    [selectionChanged] (also when nothing is selected and for the re-select
    of the Escape key); selecting another node that is a channel leaf of a
    team fires one event whose detail is the single pair of the channel and
    its team; selecting [null] while a node is selected fires one event
    with the empty array. *)
Theorem C9_selection_change_notifies_once (s : Picker)
    (node : JsRef ChannelPickerItemState) :
  (sameRef (_selectedItemState s) node = true ->
   notifications s (selectChannel node s) = [])
  /\ (forall n p,
        node = Obj n -> channels n = None -> parent n = Some p ->
        sameRef (_selectedItemState s) node = false ->
        notifications s (selectChannel node s)
        = [[Some (mkSelectedChannel (item n) (parent_item p))]])
  /\ (node = Null -> truthy (_selectedItemState s) = true ->
      notifications s (selectChannel node s) = [[]])
  /\ notifications s (onUserKeyDown keyEscape s) = [].
Proof.
  repeat split.
  - intro H. rewrite selectChannel_notifications. unfold announced.
    now rewrite H.
  - intros n p -> _ Hp H. rewrite selectChannel_notifications.
    unfold announced. now rewrite H, Hp.
  - intros -> H. rewrite selectChannel_notifications. unfold announced.
    destruct (_selectedItemState s); simpl in *; try discriminate.
    reflexivity.
  - apply quiet_notifications. apply escape_quiet.
Qed.

Lemma C9_selection_change_notifies_once_witness :
  let backendNode :=
    mkItemState 5 (mkGraphItem "C2" "Backend") None None
      (asParent 3 (mkGraphItem "T1" "Engineering")) in
  let selected := finalState (selectChannel (Obj backendNode) loadedPicker) in
  notifications loadedPicker (selectChannel Undefined loadedPicker) = []
  /\ notifications loadedPicker (selectChannel (Obj backendNode) loadedPicker)
     = [[Some (mkSelectedChannel (mkGraphItem "C2" "Backend")
                 (mkGraphItem "T1" "Engineering"))]]
  /\ notifications selected (selectChannel Null selected) = [[]]
  /\ notifications selected (onUserKeyDown keyEscape selected) = [].
Proof.
  intros backendNode selected. split; [|split; [|split]].
  - apply (proj1 (C9_selection_change_notifies_once loadedPicker Undefined)).
    reflexivity.
  - apply (proj1 (proj2 (C9_selection_change_notifies_once loadedPicker
                           (Obj backendNode)))
             backendNode
             (mkParentRef 3 (mkGraphItem "T1" "Engineering")));
      reflexivity.
  - apply (proj1 (proj2 (proj2 (C9_selection_change_notifies_once selected
                                  Null))));
      reflexivity.
  - apply (proj2 (proj2 (proj2 (C9_selection_change_notifies_once selected
                                  Null)))).
Defined.

(** C10: calling [selectChannel] with the node that is already selected is
    not a no-op; only the notification is left out. Whenever the typed text
    sits in a rendered text field (a state without the field has no typed
    text), the items are loaded and the selection is absent or a channel of
    a team, the call completes, fires no [selectionChanged] and keeps the
    selection, and still empties the typed text (and the field), drops the
    focus flag, hides the dropdown and derives the tree view again from the
    items and the now empty text, with a new focus list and focus index
    [-1]. *)
Theorem C10_reselect_still_resets (s : Picker)
    (node : JsRef ChannelPickerItemState) (items : list DropdownItem) :
  sameRef (_selectedItemState s) node = true ->
  inputElement s <> None \/ _inputValue s = "" ->
  _items s = Some items ->
  selectionHasTeam (_selectedItemState s) = true ->
  let r := selectChannel node s in
  let rebuilt := generateTreeViewState (Some items) "" None (nextRef s) in
  completes r = true
  /\ notifications s r = []
  /\ _selectedItemState (finalState r) = _selectedItemState s
  /\ _inputValue (finalState r) = ""
  /\ inputElement (finalState r) = option_map (fun _ => "") (inputElement s)
  /\ _isFocused (finalState r) = false
  /\ _isDropdownVisible (finalState r) = false
  /\ _treeViewState (finalState r) = fst rebuilt
  /\ _focusList (finalState r) = generateFocusList (Some (fst rebuilt))
  /\ _focusedIndex (finalState r) = (-1)%Z.
Proof.
  intros Hsame Hinput Hitems Hteam r rebuilt.
  split; [|split].
  2: { unfold r. rewrite selectChannel_notifications. unfold announced.
       now rewrite Hsame. }
  all: subst r rebuilt;
    destruct s as [iv foc sel its tv fl fi vis ie tie pr nr tr];
    simpl in Hsame, Hinput, Hitems, Hteam; subst its;
    assert (Hie : ie = None -> iv = "")
      by (destruct Hinput; [congruence | auto]);
    clear Hinput;
    unfold selectChannel, lostFocus, filterList, resetFocusState, clearInput,
      requestUpdate, selectedItem;
    unfold bind, get, when, modify, ret, throwTypeError;
    cbn [_selectedItemState inputElement _items _inputValue nextRef
         set_selectedItemState set_inputValue set_inputElement set_isFocused
         set_isDropdownVisible set_treeViewState set_focusList
         set_focusedIndex emit negb];
    rewrite Hsame; cbn [negb];
    cbn [_selectedItemState inputElement _items _inputValue nextRef
         set_selectedItemState set_inputValue set_inputElement set_isFocused
         set_isDropdownVisible set_treeViewState set_focusList
         set_focusedIndex emit];
    revert Hteam;
    destruct ie as [typed|]; [|rewrite (Hie eq_refl)];
    (destruct sel as [| |n]; cbn; [| |destruct (parent n)]; cbn;
      intro Hteam; try discriminate Hteam;
      destruct (generateLoop "" None items nr) as [tv' nr']; cbn;
      repeat split; reflexivity).
Qed.

Lemma C10_reselect_still_resets_witness :
  let s := finalState (gainedFocus (filteredPicker "back")) in
  let r := selectChannel (_selectedItemState s) s in
  let rebuilt := generateTreeViewState (Some sampleTeams) "" None (nextRef s) in
  (_inputValue s = "back" /\ _isFocused s = true
   /\ _isDropdownVisible s = true
   /\ map toSource (_treeViewState s)
      = [mkDropdownItem (Some [backend]) (mkGraphItem "T1" "Engineering")])
  /\ map toSource (fst rebuilt) = sampleTeams
  /\ completes r = true
  /\ notifications s r = []
  /\ _selectedItemState (finalState r) = _selectedItemState s
  /\ _inputValue (finalState r) = ""
  /\ inputElement (finalState r) = option_map (fun _ => "") (inputElement s)
  /\ _isFocused (finalState r) = false
  /\ _isDropdownVisible (finalState r) = false
  /\ _treeViewState (finalState r) = fst rebuilt
  /\ _focusList (finalState r) = generateFocusList (Some (fst rebuilt))
  /\ _focusedIndex (finalState r) = (-1)%Z.
Proof.
  intros s r rebuilt. split; [repeat split|]. split; [reflexivity|].
  apply (C10_reselect_still_resets s (_selectedItemState s) sampleTeams).
  - reflexivity.
  - left. discriminate.
  - reflexivity.
  - reflexivity.
Defined.

(** ** Keyboard: the Down key *)

Lemma focus_list_needs_tree (s : Picker) :
  _focusList s = generateFocusList (Some (_treeViewState s)) ->
  _focusList s <> [] ->
  (List.length (_treeViewState s) =? 0)%nat = false.
Proof.
  intros Hinv Hne. destruct (_treeViewState s) as [|n r] eqn:E.
  - exfalso. apply Hne. rewrite Hinv. reflexivity.
  - reflexivity.
Qed.

Lemma onUserKeyDown_down (s : Picker) :
  (List.length (_treeViewState s) =? 0)%nat = false ->
  onUserKeyDown keyDown s =
  (when (_focusedIndex s =? -1)%Z
     (if treeItemElement s then modify (emit FocusTreeItem)
      else throwTypeError) ;;
   when (_focusedIndex s <? Z.of_nat (List.length (_focusList s)) - 1)%Z
     (modify (set_focusedIndex (_focusedIndex s + 1)))) s.
Proof.
  intro Htree. unfold onUserKeyDown.
  change (keyDown =? keyEnter)%Z with false.
  change (keyDown =? keyDown)%Z with true.
  unfold bind at 1 2, when at 1, ret at 1, get. cbv iota. rewrite Htree.
  reflexivity.
Qed.

(** C3, as stated, fails: with three entries in the focus list and focus
    index [-1], one Down press already moves the index to [0]. *)
Lemma C3_counterexample :
  let s := filteredPicker "eng" in
  List.length (_focusList s) = 3
  /\ _focusedIndex s = (-1)%Z
  /\ _focusedIndex (finalState (onUserKeyDown keyDown s)) = 0%Z
  /\ _focusedIndex (finalState (onUserKeyDown keyDown s)) <> (-1)%Z.
Proof. vm_compute. repeat split; discriminate. Qed.

(** C3, amended: for every non-empty focus list (the flattening of the
    current tree view), a Down press while the focus index is [-1] moves the
    browser focus into the list and, in the same press, advances the index
    to [0]; below the last entry Down advances the index by one; at the last
    entry Down leaves the index unchanged (no wraparound). *)
Theorem C3_down_advances_from_no_focus (s : Picker) :
  _focusList s = generateFocusList (Some (_treeViewState s)) ->
  _focusList s <> [] ->
  let last := (Z.of_nat (List.length (_focusList s)) - 1)%Z in
  let r := onUserKeyDown keyDown s in
  (_focusedIndex s = (-1)%Z -> treeItemElement s = true ->
   completes r = true
   /\ effectsOf s r = [FocusTreeItem]
   /\ _focusedIndex (finalState r) = 0%Z)
  /\ ((0 <= _focusedIndex s < last)%Z ->
      completes r = true
      /\ effectsOf s r = []
      /\ _focusedIndex (finalState r) = (_focusedIndex s + 1)%Z)
  /\ (_focusedIndex s = last ->
      completes r = true
      /\ effectsOf s r = []
      /\ _focusedIndex (finalState r) = last).
Proof.
  intros Hinv Hne last r.
  pose proof (focus_list_needs_tree s Hinv Hne) as Htree.
  assert (Hlast : (0 <= last)%Z).
  { unfold last. destruct (_focusList s); [congruence | simpl List.length; lia]. }
  subst r. rewrite (onUserKeyDown_down s Htree). fold last.
  unfold bind, when, modify, ret, throwTypeError.
  split; [|split].
  - intros Hidx Hdom. rewrite Hidx, Hdom.
    change (-1 =? -1)%Z with true. cbv iota.
    destruct (Z.ltb_spec (-1) last) as [_|Hge]; [|lia].
    repeat split.
    apply (effectsOf_extension s _ [FocusTreeItem]). reflexivity.
  - intros [Hlo Hhi].
    destruct (Z.eqb_spec (_focusedIndex s) (-1)) as [E|_]; [lia|].
    destruct (Z.ltb_spec (_focusedIndex s) last) as [_|Hge]; [|lia].
    repeat split.
    apply (effectsOf_extension s _ []). simpl. now rewrite app_nil_r.
  - intros Hidx.
    destruct (Z.eqb_spec (_focusedIndex s) (-1)) as [E|_]; [lia|].
    destruct (Z.ltb_spec (_focusedIndex s) last) as [Hlt|_]; [lia|].
    repeat split; [|exact Hidx].
    apply (effectsOf_extension s _ []). simpl. now rewrite app_nil_r.
Qed.

Lemma C3_down_advances_from_no_focus_witness :
  let s := filteredPicker "eng" in
  let r := onUserKeyDown keyDown s in
  let r2 := onUserKeyDown keyDown (finalState r) in
  let atLast := set_focusedIndex 2 s in
  (completes r = true
   /\ effectsOf s r = [FocusTreeItem]
   /\ _focusedIndex (finalState r) = 0%Z)
  /\ (completes r2 = true
      /\ effectsOf (finalState r) r2 = []
      /\ _focusedIndex (finalState r2) = (0 + 1)%Z)
  /\ (completes (onUserKeyDown keyDown atLast) = true
      /\ effectsOf atLast (onUserKeyDown keyDown atLast) = []
      /\ _focusedIndex (finalState (onUserKeyDown keyDown atLast)) = (3 - 1)%Z).
Proof.
  intros s r r2 atLast. split; [|split].
  - apply (proj1 (C3_down_advances_from_no_focus s eq_refl
                    ltac:(intro H; vm_compute in H; discriminate H))); reflexivity.
  - apply (proj1 (proj2 (C3_down_advances_from_no_focus (finalState r) eq_refl
                           ltac:(intro H; vm_compute in H; discriminate H)))).
    vm_compute. split; [discriminate | reflexivity].
  - apply (proj2 (proj2 (C3_down_advances_from_no_focus atLast eq_refl
                           ltac:(intro H; vm_compute in H; discriminate H)))).
    reflexivity.
Defined.

(** ** Lookup by channel id *)

(** Some channel of the current tree view has the id. *)
Lemma findChannel_none (channelId : jsstring)
    (cs : list ChannelPickerItemState) :
  findChannel channelId cs = None <->
  existsb (fun c => (id (item c) =? channelId)%js) cs = false.
Proof.
  induction cs as [|c r IH]; simpl; [tauto|].
  destruct (id (item c) =? channelId)%js; simpl; [|exact IH].
  split; discriminate.
Qed.

(** The lookup goes through the current tree view only: when no channel
    of the tree view has the id, it answers [false] and changes nothing,
    whatever the source data holds. *)
Lemma searchChannels_miss (channelId : jsstring)
    (treeView : list ChannelPickerItemState) (s : Picker) :
  Forall (fun t => exists cs, channels t = Some cs
                   /\ findChannel channelId cs = None) treeView ->
  searchChannels channelId treeView s = Normal false s.
Proof.
  induction 1 as [|t r (cs & Hcs & Hfind) _ IH]; simpl; [reflexivity|].
  now rewrite Hcs, Hfind.
Qed.

(** A team without [channels] in front of any match makes the lookup
    raise. *)
Lemma searchChannels_missing_channels (channelId : jsstring)
    (t : ChannelPickerItemState) (rest : list ChannelPickerItemState)
    (s : Picker) :
  channels t = None ->
  searchChannels channelId (t :: rest) s = TypeError s.
Proof. intro H. simpl. now rewrite H. Qed.

(** C1: on the loaded sample team, after the user typed "back" the tree
    view holds the channel "Backend" only; the source data still has the
    channel with id "C1", yet [selectChannelById] does not find it: it
    answers [false] and selects nothing. Without the filter the same call
    answers [true] and selects the channel. *)
Theorem C1_lookup_misses_filtered_out_channel :
  let s := filteredPicker "back" in
  _items s = Some sampleTeams
  /\ sourceHasChannel "C1" sampleTeams = true
  /\ _inputValue s = "back"
  /\ selectChannelById "C1" s = Normal false s
  /\ exists s',
       selectChannelById "C1" loadedPicker = Normal true s'
       /\ selectedItem s'
          = Normal (Some (mkSelectedChannel (mkGraphItem "C1" "General")
                            (mkGraphItem "T1" "Engineering"))) s'.
Proof.
  vm_compute. repeat split. eexists. split; reflexivity.
Qed.

(** C2: a team whose channel request had no content is loaded without
    [channels]; the tree view keeps it as a top-level entry, and
    [selectChannelById] raises a [TypeError] when it iterates over its
    channels. *)
Theorem C2_lookup_raises_on_team_without_channels :
  let s := loadedWithoutChannels in
  _items s = Some [marketing]
  /\ _treeViewState s
     = [mkItemState 1 (mkGraphItem "T2" "Marketing") None None None]
  /\ selectChannelById "C1" s = TypeError s
  /\ completes (selectChannelById "C1" s) = false.
Proof. vm_compute. repeat split. Qed.
